(** * MediumPage: the medium-object page of the custom allocator

    A shallow embedding of
    [kotlin-native/runtime/src/custom_alloc/cpp/MediumPage.cpp] and the
    properties of its cell chain, its cursor search and its sweep.

    The page owns an array [cells_] of [MEDIUM_PAGE_CELL_COUNT] units.  A unit
    that starts a cell holds a header ([isAllocated_], [size_]); the other
    units are payload.  The array is modelled as a finite map from unit index
    to header: a unit that was never written as a header holds none, and
    reading it, or touching a unit outside the array, is a [Fault].  Pointers
    into the array are unit indices ([cells_ + k] is [k]).  The [for] and
    [while] loops of the source are not bounded by the code itself, so each is
    a recursion on a fuel counter that ends in [Timeout] when it runs out. *)

From stdpp Require Import gmap list.
From Stdlib Require Import ZArith Lia.

Open Scope Z_scope.

(** ** Outcomes of a call *)

Inductive outcome (A : Type) : Type :=
  | Done (a : A)   (* the call returned *)
  | Abort          (* a RuntimeAssert failed *)
  | Fault          (* access outside the cell array or to a unit without header *)
  | Timeout.       (* the fuel of a loop ran out *)

Arguments Done {A} a.
Arguments Abort {A}.
Arguments Fault {A}.
Arguments Timeout {A}.

Definition obind {A B : Type} (m : outcome A) (k : A → outcome B) : outcome B :=
  match m with
  | Done a => k a
  | Abort => Abort
  | Fault => Fault
  | Timeout => Timeout
  end.

Notation "'do' x <- m ;; k" := (obind m (fun x => k))
  (at level 10, x pattern, m at level 99, k at level 200).

(** ** 32-bit unsigned arithmetic *)

Definition UINT32_MOD : Z := 2 ^ 32.

Definition u32 (z : Z) : Z := z mod UINT32_MOD.

(** ** Cells *)

Record Cell : Type := mkCell { isAllocated_ : bool; size_ : Z }.

Global Instance Cell_eq_dec : EqDecision Cell.
Proof. solve_decision. Defined.

Record MediumPage : Type := mkPage { curBlock_ : Z; cells_ : gmap Z Cell }.

(** Modelled from the spec: the constructor [Cell(size)] of the absent
    MediumPage.hpp; a fresh header is free and records [size] in a [uint32_t]. *)
Definition Cell_new (size : Z) : Cell :=
  {| isAllocated_ := false; size_ := u32 size |}.

(** Modelled from the spec: [Cell::Next()] of the absent Cell code, "the
    cell's address plus [size] units". *)
Definition Next (block : Z) (c : Cell) : Z := block + size_ c.

(** Modelled from the spec: [Cell::Deallocate()] of the absent Cell code,
    "sets allocated = false; never merges with neighbors". *)
Definition Deallocate (c : Cell) : Cell :=
  {| isAllocated_ := false; size_ := size_ c |}.

(** Modelled from the spec: the payload [data_] of a cell starts in the unit
    that follows its header. *)
Definition data_ (block : Z) : Z := block + 1.

(** Modelled from the spec: [TryResetMark] of the absent GCApi, "given a
    payload address, atomically test-and-clear its reachability mark,
    returning the prior state".  The collector's marks are the set of marked
    payload addresses. *)
Definition TryResetMark (payload : Z) (marks : gset Z) : bool * gset Z :=
  (bool_decide (payload ∈ marks), marks ∖ {[payload]}).

Section Page.

Variable MEDIUM_PAGE_CELL_COUNT : Z.

(** Reading and writing the header in unit [i] of [cells_]. *)
Definition load (cells : gmap Z Cell) (i : Z) : outcome Cell :=
  if bool_decide (0 ≤ i < MEDIUM_PAGE_CELL_COUNT) then
    match cells !! i with
    | Some c => Done c
    | None => Fault
    end
  else Fault.

Definition store (cells : gmap Z Cell) (i : Z) (c : Cell) : outcome (gmap Z Cell) :=
  if bool_decide (0 ≤ i < MEDIUM_PAGE_CELL_COUNT) then Done (<[i := c]> cells)
  else Fault.

(** Modelled from the spec: [Cell::TryAllocate(cellsNeeded)] of the absent
    Cell code.  It fails without side effect when the cell is allocated or
    smaller than [cellsNeeded]; otherwise it marks the cell allocated and,
    when the cell is larger than needed, shrinks it to [cellsNeeded] and
    writes a free header for the remainder right after it.  The result is
    the payload address, [None] for the null pointer. *)
Definition Cell_TryAllocate (cells : gmap Z Cell) (block cellsNeeded : Z)
  : outcome (option Z * gmap Z Cell) :=
  do c <- load cells block ;;
  if isAllocated_ c || (size_ c <? cellsNeeded) then Done (None, cells)
  else
    do cells1 <- store cells block {| isAllocated_ := true; size_ := size_ c |} ;;
    do cells2 <-
      (if cellsNeeded <? size_ c then
         do cells' <- store cells1 block {| isAllocated_ := true; size_ := cellsNeeded |} ;;
         store cells' (block + cellsNeeded) (Cell_new (size_ c - cellsNeeded))
       else Done cells1) ;;
    Done (Some (data_ block), cells2).

(** [MediumPage::Create] with the constructor [MediumPage::MediumPage]. *)
Definition Create (cellCount : Z) : outcome MediumPage :=
  if bool_decide (cellCount < MEDIUM_PAGE_CELL_COUNT) then
    do cells0 <- store ∅ 0 (Cell_new 0) ;;
    do cells1 <- store cells0 1 (Cell_new (MEDIUM_PAGE_CELL_COUNT - 1)) ;;
    Done {| curBlock_ := 0; cells_ := cells1 |}
  else Abort.

(** One of the two scanning loops of [MediumPage::UpdateCurBlock]: from
    [block] until [stop].  The result is [(true, b)] when the loop returned
    from the function with [curBlock_ = b], and [(false, maxBlock)] when it
    ran to [stop]. *)
Fixpoint scan (fuel : nat) (cells : gmap Z Cell) (cellsNeeded stop block maxBlock : Z)
  : outcome (bool * Z) :=
  if bool_decide (block = stop) then Done (false, maxBlock)
  else
    match fuel with
    | O => Timeout
    | S fuel' =>
      do c <- load cells block ;;
      do larger <-
        (if isAllocated_ c then Done false
         else do m <- load cells maxBlock ;; Done (size_ m <? size_ c)) ;;
      if (larger : bool) then
        if cellsNeeded <=? size_ c then Done (true, block)
        else scan fuel' cells cellsNeeded stop (Next block c) block
      else scan fuel' cells cellsNeeded stop (Next block c) maxBlock
    end.

(** [MediumPage::UpdateCurBlock]. *)
Definition UpdateCurBlock (fuel : nat) (p : MediumPage) (cellsNeeded : Z)
  : outcome MediumPage :=
  let cur := if bool_decide (curBlock_ p = 0) then 1 else curBlock_ p in
  let end_ := MEDIUM_PAGE_CELL_COUNT in
  do (found, maxBlock) <- scan fuel (cells_ p) cellsNeeded end_ cur 0 ;;
  if (found : bool) then Done {| curBlock_ := maxBlock; cells_ := cells_ p |}
  else
    do (_, maxBlock') <- scan fuel (cells_ p) cellsNeeded cur 1 maxBlock ;;
    Done {| curBlock_ := maxBlock'; cells_ := cells_ p |}.

(** [MediumPage::TryAllocate]. *)
Definition TryAllocate (fuel : nat) (p : MediumPage) (blockSize : Z)
  : outcome (option Z * MediumPage) :=
  let cellsNeeded := u32 (blockSize + 1) in
  do (block, cells) <- Cell_TryAllocate (cells_ p) (curBlock_ p) cellsNeeded ;;
  match block with
  | Some b => Done (Some b, {| curBlock_ := curBlock_ p; cells_ := cells |})
  | None =>
    do p' <- UpdateCurBlock fuel {| curBlock_ := curBlock_ p; cells_ := cells |} cellsNeeded ;;
    do (block', cells') <- Cell_TryAllocate (cells_ p') (curBlock_ p') cellsNeeded ;;
    Done (block', {| curBlock_ := curBlock_ p'; cells_ := cells' |})
  end.

(** The first loop of [MediumPage::Sweep]: reclaim the unmarked cells. *)
Fixpoint reclaim (fuel : nat) (cells : gmap Z Cell) (marks : gset Z) (alive : bool) (block : Z)
  : outcome (gmap Z Cell * gset Z * bool) :=
  if bool_decide (block = MEDIUM_PAGE_CELL_COUNT) then Done (cells, marks, alive)
  else
    match fuel with
    | O => Timeout
    | S fuel' =>
      do c <- load cells block ;;
      if isAllocated_ c then
        let '(marked, marks') := TryResetMark (data_ block) marks in
        if marked then reclaim fuel' cells marks' true (Next block c)
        else
          do cells' <- store cells block (Deallocate c) ;;
          do c' <- load cells' block ;;
          reclaim fuel' cells' marks' alive (Next block c')
      else reclaim fuel' cells marks alive (Next block c)
    end.

(** The [while] loop of the second pass: [block] absorbs the free cells that
    follow it. *)
Fixpoint absorb (fuel : nat) (cells : gmap Z Cell) (block : Z) : outcome (gmap Z Cell) :=
  do c <- load cells block ;;
  if bool_decide (Next block c = MEDIUM_PAGE_CELL_COUNT) then Done cells
  else
    do n <- load cells (Next block c) ;;
    if isAllocated_ n then Done cells
    else
      match fuel with
      | O => Timeout
      | S fuel' =>
        do cells' <- store cells block
                       {| isAllocated_ := isAllocated_ c; size_ := u32 (size_ c + size_ n) |} ;;
        absorb fuel' cells' block
      end.

(** The second loop of [MediumPage::Sweep]: coalesce and track the largest
    free cell. *)
Fixpoint coalesce (fuel : nat) (cells : gmap Z Cell) (block maxBlock : Z)
  : outcome (gmap Z Cell * Z) :=
  if bool_decide (block = MEDIUM_PAGE_CELL_COUNT) then Done (cells, maxBlock)
  else
    match fuel with
    | O => Timeout
    | S fuel' =>
      do c <- load cells block ;;
      if isAllocated_ c then coalesce fuel' cells (Next block c) maxBlock
      else
        do cells' <- absorb fuel cells block ;;
        do c' <- load cells' block ;;
        do m <- load cells' maxBlock ;;
        coalesce fuel' cells' (Next block c')
          (if size_ m <? size_ c' then block else maxBlock)
    end.

(** [MediumPage::Sweep]. *)
Definition Sweep (fuel : nat) (p : MediumPage) (marks : gset Z)
  : outcome (bool * MediumPage * gset Z) :=
  do (cells1, marks', alive) <- reclaim fuel (cells_ p) marks false 1 ;;
  do (cells2, maxBlock) <- coalesce fuel cells1 1 0 ;;
  Done (alive, {| curBlock_ := maxBlock; cells_ := cells2 |}, marks').

(** The loop of [MediumPage::CheckInvariants]. *)
Fixpoint check_chain (fuel : nat) (cells : gmap Z Cell) (cur : Z) : outcome bool :=
  match fuel with
  | O => Timeout
  | S fuel' =>
    do c <- load cells cur ;;
    if Next cur c <=? cur then Done false
    else if MEDIUM_PAGE_CELL_COUNT <? Next cur c then Done false
    else if Next cur c =? MEDIUM_PAGE_CELL_COUNT then Done true
    else check_chain fuel' cells (Next cur c)
  end.

(** [MediumPage::CheckInvariants]. *)
Definition CheckInvariants (fuel : nat) (p : MediumPage) : outcome bool :=
  if (curBlock_ p <? 0) || (MEDIUM_PAGE_CELL_COUNT <=? curBlock_ p) then Done false
  else check_chain fuel (cells_ p) 1.

(** ** Running a sequence of operations

    The collector marks payloads between the calls; the page and the marks
    together are the state an operation acts on. *)

Inductive op : Type :=
  | OpTryAllocate (blockSize : Z)
  | OpSweep
  | OpMark (payload : Z).

Definition step (fuel : nat) (o : op) (s : MediumPage * gset Z)
  : outcome (MediumPage * gset Z) :=
  match o with
  | OpTryAllocate blockSize =>
    do (_, p') <- TryAllocate fuel (fst s) blockSize ;; Done (p', snd s)
  | OpSweep =>
    do (_, p', marks') <- Sweep fuel (fst s) (snd s) ;; Done (p', marks')
  | OpMark payload => Done (fst s, {[payload]} ∪ snd s)
  end.

Fixpoint run (fuel : nat) (ops : list op) (s : MediumPage * gset Z)
  : outcome (MediumPage * gset Z) :=
  match ops with
  | [] => Done s
  | o :: ops' => do s' <- step fuel o s ;; run fuel ops' s'
  end.

(** ** The cell chain

    [chain cells i j l]: the headers of [l] lie one after the other from unit
    [i] up to unit [j], each of positive size. *)

Fixpoint chain (cells : gmap Z Cell) (i j : Z) (l : list Cell) : Prop :=
  match l with
  | [] => i = j
  | c :: l' => load cells i = Done c ∧ 0 < size_ c ∧ chain cells (Next i c) j l'
  end.

(** The units at which the cells of a chain start, and the cells with them. *)
Fixpoint starts (i : Z) (l : list Cell) : list Z :=
  match l with
  | [] => []
  | c :: l' => i :: starts (Next i c) l'
  end.

Fixpoint headers (i : Z) (l : list Cell) : list (Z * Cell) :=
  match l with
  | [] => []
  | c :: l' => (i, c) :: headers (Next i c) l'
  end.

Fixpoint total (l : list Cell) : Z :=
  match l with
  | [] => 0
  | c :: l' => size_ c + total l'
  end.

(** The state invariant: a zero-size sentinel in unit 0, a chain from unit 1
    to the end of the array, and the cursor on the sentinel or on a cell of
    the chain. *)
Record page_ok (p : MediumPage) (l : list Cell) : Prop := mkPageOk {
  ok_sentinel : ∃ c0, load (cells_ p) 0 = Done c0 ∧ size_ c0 = 0;
  ok_chain : chain (cells_ p) 1 MEDIUM_PAGE_CELL_COUNT l;
  ok_cursor : curBlock_ p = 0 ∨ curBlock_ p ∈ starts 1 l
}.

(** ** The cursor search on the list of cells

    [scan_list] is the body of the scanning loops of [UpdateCurBlock] run
    over the cells of a chain given with their start units; [m] is the
    start and the size of [maxBlock]. *)

Definition free_larger (msz : Z) (c : Cell) : bool :=
  negb (isAllocated_ c) && (msz <? size_ c).

Fixpoint scan_list (n : Z) (L : list (Z * Cell)) (m : Z * Z) : bool * (Z * Z) :=
  match L with
  | [] => (false, m)
  | (b, c) :: L' =>
    if free_larger m.2 c then
      if n <=? size_ c then (true, (b, size_ c)) else scan_list n L' (b, size_ c)
    else scan_list n L' m
  end.

(** The largest-free-cell tracking shared by [UpdateCurBlock] and [Sweep]. *)
Fixpoint max_free (L : list (Z * Cell)) (m : Z * Z) : Z * Z :=
  match L with
  | [] => m
  | (b, c) :: L' => max_free L' (if free_larger m.2 c then (b, size_ c) else m)
  end.

(** A free cell that can hold [n] units. *)
Definition fits (n : Z) (c : Cell) : bool :=
  negb (isAllocated_ c) && (n <=? size_ c).

(** The cell the scan of [UpdateCurBlock] starts from, and the order in which
    the scan meets the cells of the chain [l]: from the cursor to the end of
    the page, then from unit 1 up to the cursor. *)
Definition scan_start (p : MediumPage) : Z :=
  if bool_decide (curBlock_ p = 0) then 1 else curBlock_ p.

Definition scan_order (p : MediumPage) (l : list Cell) : list (Z * Cell) :=
  filter (λ h, scan_start p ≤ h.1) (headers 1 l) ++
  filter (λ h, h.1 < scan_start p) (headers 1 l).

(** [b] is the earliest free cell of maximal size in [L], or the sentinel
    (unit 0) when [L] has no free cell. *)
Definition earliest_max (L : list (Z * Cell)) (b : Z) : Prop :=
  (b = 0 ∧ Forall (λ h, isAllocated_ h.2 = true) L) ∨
  (∃ L1 c L2, L = L1 ++ (b, c) :: L2 ∧ isAllocated_ c = false ∧
     Forall (λ h, isAllocated_ h.2 = false → size_ h.2 < size_ c) L1 ∧
     Forall (λ h, isAllocated_ h.2 = false → size_ h.2 ≤ size_ c) L2).

(** ** The sweep on the list of cells *)

(** An allocated cell whose payload is marked. *)
Definition live (marks : gset Z) (h : Z * Cell) : bool :=
  isAllocated_ h.2 && bool_decide (data_ h.1 ∈ marks).

(** What the first pass of [Sweep] leaves of the cell [h.2] that starts in
    unit [h.1]: an allocated cell with an unmarked payload is deallocated. *)
Definition sweep_cell (marks : gset Z) (h : Z * Cell) : Cell :=
  if isAllocated_ h.2 && negb (bool_decide (data_ h.1 ∈ marks))
  then Deallocate h.2 else h.2.

Definition reclaimed (marks : gset Z) (b : Z) (l : list Cell) : list Cell :=
  sweep_cell marks <$> headers b l.

(** The payloads whose mark the first pass tests and clears. *)
Fixpoint queried (b : Z) (l : list Cell) : gset Z :=
  match l with
  | [] => ∅
  | c :: l' =>
    (if isAllocated_ c then {[data_ b]} else ∅) ∪ queried (Next b c) l'
  end.

(** Coalescing: every maximal run of free cells becomes one free cell. *)
Definition merge (c : Cell) (r : list Cell) : list Cell :=
  match r with
  | d :: r' =>
    if negb (isAllocated_ c) && negb (isAllocated_ d)
    then {| isAllocated_ := false; size_ := size_ c + size_ d |} :: r'
    else c :: r
  | [] => [c]
  end.

Fixpoint coalesced (l : list Cell) : list Cell :=
  match l with
  | [] => []
  | c :: l' => merge c (coalesced l')
  end.

(** The [while] loop of the second pass on the list of the cells that follow
    [c]: the grown cell and the cells left after it. *)
Fixpoint absorb_list (c : Cell) (l : list Cell) : Cell * list Cell :=
  match l with
  | [] => (c, [])
  | n :: l' =>
    if isAllocated_ n then (c, l)
    else absorb_list {| isAllocated_ := isAllocated_ c; size_ := size_ c + size_ n |} l'
  end.

(** What the second pass may change in the cell array: the size of free
    cells, nothing else. *)
Definition sizes_of_free_changed (cells cells' : gmap Z Cell) : Prop :=
  ∀ k, cells' !! k = cells !! k ∨
       ∃ c c', cells !! k = Some c ∧ cells' !! k = Some c' ∧
               isAllocated_ c = false ∧ isAllocated_ c' = false.

(** No two neighbouring cells of the list are both free. *)
Fixpoint separated (l : list Cell) : Prop :=
  match l with
  | c :: l' =>
    match l' with
    | d :: _ => (isAllocated_ c = true ∨ isAllocated_ d = true) ∧ separated l'
    | [] => True
    end
  | [] => True
  end.

(** The [while] loop of the second pass has nothing to absorb. *)
Definition stops (l : list Cell) : Prop :=
  match l with
  | n :: _ => isAllocated_ n = true
  | [] => True
  end.

(** The last cell of the list, if any, is allocated. *)
Definition ends_allocated (pre : list Cell) : Prop :=
  match last pre with
  | Some z => isAllocated_ z = true
  | None => True
  end.

(** The cursor is on the sentinel or on a free cell. *)
Definition cursor_free (p : MediumPage) : Prop :=
  (curBlock_ p = 0 ∧ ∃ c0, load (cells_ p) 0 = Done c0 ∧ size_ c0 = 0) ∨
  (∃ c, load (cells_ p) (curBlock_ p) = Done c ∧ isAllocated_ c = false).

(** [b] is unit 0 or a unit that holds a free header. *)
Definition unit0_or_free (cells : gmap Z Cell) (b : Z) : Prop :=
  b = 0 ∨ ∃ c, load cells b = Done c ∧ isAllocated_ c = false.

(** ** A page of 16 units

    States of a page of 16 units, among them those of the specification's
    end-to-end scenario. *)

Definition free_cell (size : Z) : Cell := {| isAllocated_ := false; size_ := size |}.
Definition used_cell (size : Z) : Cell := {| isAllocated_ := true; size_ := size |}.

(** The page [Create] returns. *)
Definition fresh16 : MediumPage :=
  {| curBlock_ := 0; cells_ := list_to_map [(0, free_cell 0); (1, free_cell 15)] |}.

(** The fresh page after a failed [TryAllocate(20)]. *)
Definition fresh_moved16 : MediumPage :=
  {| curBlock_ := 1; cells_ := list_to_map [(0, free_cell 0); (1, free_cell 15)] |}.

(** The fresh page after [TryAllocate(5)]. *)
Definition one_used16 : MediumPage :=
  {| curBlock_ := 1;
     cells_ := list_to_map [(0, free_cell 0); (1, used_cell 6); (7, free_cell 9)] |}.

(** [one_used16] after a sweep that found the payload in unit 2 marked; also
    [one_used16] after a failed [TryAllocate(20)], which moves the cursor to
    the largest free cell. *)
Definition one_used_swept16 : MediumPage :=
  {| curBlock_ := 7;
     cells_ := list_to_map [(0, free_cell 0); (1, used_cell 6); (7, free_cell 9)] |}.

(** [one_used_swept16] after a second sweep. *)
Definition all_free16 : MediumPage :=
  {| curBlock_ := 1;
     cells_ := list_to_map [(0, free_cell 0); (1, free_cell 15); (7, free_cell 9)] |}.

(** [one_used16] after [TryAllocate(8)]. *)
Definition two_used16 : MediumPage :=
  {| curBlock_ := 7;
     cells_ := list_to_map [(0, free_cell 0); (1, used_cell 6); (7, used_cell 9)] |}.

(** A page with two free cells and the cursor on the second. *)
Definition mixed16 : MediumPage :=
  {| curBlock_ := 8;
     cells_ := list_to_map [(0, free_cell 0); (1, free_cell 3); (4, used_cell 4);
                            (8, free_cell 2); (10, used_cell 6)] |}.

(** A page that is not well formed: the cell after the first has size 0. *)
Definition broken16 : MediumPage :=
  {| curBlock_ := 1;
     cells_ := list_to_map [(0, free_cell 0); (1, used_cell 6); (7, free_cell 0)] |}.

(** The end-to-end scenario of the specification. *)
Definition scenario16 : list op :=
  [OpTryAllocate 5; OpTryAllocate 20; OpTryAllocate 8; OpMark 2; OpSweep; OpTryAllocate 8].

(** ** Carving a cell

    The cell array after a successful [Cell::TryAllocate(n)] in the free cell
    [c] that starts in unit [b]: the writes of [Cell_TryAllocate], in their
    order. *)
Definition carved (cells : gmap Z Cell) (b n : Z) (c : Cell) : gmap Z Cell :=
  let cells1 := <[b := {| isAllocated_ := true; size_ := size_ c |}]> cells in
  if n <? size_ c then
    <[b + n := Cell_new (size_ c - n)]>
      (<[b := {| isAllocated_ := true; size_ := n |}]> cells1)
  else cells1.

(** The free cell left behind the [n] units carved out of [c], if any. *)
Definition remainder (n : Z) (c : Cell) : list Cell :=
  if n <? size_ c then [free_cell (size_ c - n)] else [].

(** ** Basic facts on the cell array and on chains *)

Hypothesis CELL_COUNT_range : 2 ≤ MEDIUM_PAGE_CELL_COUNT < UINT32_MOD.

Lemma load_Done cells i c :
  load cells i = Done c ↔ 0 ≤ i < MEDIUM_PAGE_CELL_COUNT ∧ cells !! i = Some c.
Proof.
  unfold load. case_bool_decide; [destruct (cells !! i) eqn:E|];
    split; intros; naive_solver.
Qed.

Lemma store_Done cells i c :
  0 ≤ i < MEDIUM_PAGE_CELL_COUNT → store cells i c = Done (<[i := c]> cells).
Proof. intros. unfold store. by rewrite bool_decide_eq_true_2. Qed.

Lemma load_insert_eq cells i c :
  0 ≤ i < MEDIUM_PAGE_CELL_COUNT → load (<[i := c]> cells) i = Done c.
Proof. intros. apply load_Done. by rewrite lookup_insert_eq. Qed.

Lemma load_insert_ne cells i j c :
  i ≠ j → load (<[i := c]> cells) j = load cells j.
Proof. intros. unfold load. by rewrite lookup_insert_ne. Qed.

Lemma load_ext cells cells' i :
  cells' !! i = cells !! i → load cells' i = load cells i.
Proof. intros E. unfold load. by rewrite E. Qed.

Lemma total_length l :
  Forall (λ c, 0 < size_ c) l → Z.of_nat (length l) ≤ total l.
Proof. induction 1; simpl; lia. Qed.

Lemma total_app l1 l2 : total (l1 ++ l2) = total l1 + total l2.
Proof. induction l1; simpl; lia. Qed.

Lemma chain_total cells i j l : chain cells i j l → j = i + total l.
Proof.
  revert i. induction l as [|c l IH]; simpl; intros i H; [lia|].
  destruct H as (_ & _ & H). apply IH in H. unfold Next in H. lia.
Qed.

Lemma chain_pos cells i j l : chain cells i j l → Forall (λ c, 0 < size_ c) l.
Proof.
  revert i. induction l as [|c l IH]; simpl; intros i H; [constructor|].
  destruct H as (_ & ? & H). constructor; eauto.
Qed.

Lemma chain_length cells i j l : chain cells i j l → Z.of_nat (length l) ≤ j - i.
Proof.
  intros H. pose proof (chain_total _ _ _ _ H).
  pose proof (total_length _ (chain_pos _ _ _ _ H)). lia.
Qed.

Lemma chain_fuel cells i l fuel :
  chain cells i MEDIUM_PAGE_CELL_COUNT l → 0 ≤ i →
  (Z.to_nat MEDIUM_PAGE_CELL_COUNT ≤ fuel)%nat → (length l ≤ fuel)%nat.
Proof. intros H ? ?. apply chain_length in H. lia. Qed.

Lemma chain_nil_inv cells i l : chain cells i i l → l = [].
Proof.
  intros H. pose proof (chain_length _ _ _ _ H).
  destruct l; [done|]. simpl in *. lia.
Qed.

Lemma chain_frame cells cells' i j l :
  chain cells i j l → (∀ k, i ≤ k < j → cells' !! k = cells !! k) →
  chain cells' i j l.
Proof.
  revert i. induction l as [|c l IH]; simpl; intros i H Hk; [done|].
  destruct H as (Hl & Hc & H).
  pose proof (chain_total _ _ _ _ H) as Ht.
  pose proof (total_length _ (chain_pos _ _ _ _ H)).
  unfold Next in *. split_and!; [|done|].
  - rewrite <- Hl. apply load_ext, Hk. lia.
  - apply IH; [done|]. intros k ?. apply Hk. lia.
Qed.

Lemma chain_app cells i j l1 l2 :
  chain cells i j (l1 ++ l2) ↔
  chain cells i (i + total l1) l1 ∧ chain cells (i + total l1) j l2.
Proof.
  revert i. induction l1 as [|c l1 IH]; simpl; intros i.
  - rewrite Z.add_0_r. naive_solver.
  - rewrite IH. unfold Next. rewrite Z.add_assoc. naive_solver.
Qed.

Lemma starts_app i l1 l2 :
  starts i (l1 ++ l2) = starts i l1 ++ starts (i + total l1) l2.
Proof.
  revert i. induction l1 as [|c l1 IH]; simpl; intros i.
  - by rewrite Z.add_0_r.
  - rewrite IH. unfold Next. by rewrite Z.add_assoc.
Qed.

Lemma headers_app i l1 l2 :
  headers i (l1 ++ l2) = headers i l1 ++ headers (i + total l1) l2.
Proof.
  revert i. induction l1 as [|c l1 IH]; simpl; intros i.
  - by rewrite Z.add_0_r.
  - rewrite IH. unfold Next. by rewrite Z.add_assoc.
Qed.

Lemma headers_starts i l : (headers i l).*1 = starts i l.
Proof. revert i. induction l; simpl; intros; f_equal; auto. Qed.

Lemma headers_cells i l : (headers i l).*2 = l.
Proof. revert i. induction l; simpl; intros; f_equal; auto. Qed.

Lemma starts_split i l k :
  k ∈ starts i l → ∃ l1 c l2, l = l1 ++ c :: l2 ∧ k = i + total l1.
Proof.
  revert i. induction l as [|c l IH]; simpl; intros i H.
  - by apply elem_of_nil in H.
  - apply elem_of_cons in H as [->|H].
    + exists [], c, l. simpl. split; [done|lia].
    + apply IH in H as (l1 & c' & l2 & -> & ->).
      exists (c :: l1), c', l2. simpl. unfold Next. split; [done|lia].
Qed.

Lemma starts_ge i l k :
  Forall (λ c, 0 < size_ c) l → k ∈ starts i l → i ≤ k < i + total l.
Proof.
  intros Hp H. apply starts_split in H as (l1 & c & l2 & -> & ->).
  rewrite total_app. simpl.
  apply Forall_app in Hp as [H1 H2]. inversion H2; subst.
  pose proof (total_length _ H1). pose proof (total_length l2 ltac:(done)). lia.
Qed.

Lemma chain_headers cells i j l k c :
  chain cells i j l → (k, c) ∈ headers i l → load cells k = Done c.
Proof.
  revert i. induction l as [|c' l IH]; simpl; intros i H Hin.
  - by apply elem_of_nil in Hin.
  - destruct H as (? & ? & H). apply elem_of_cons in Hin as [?|?]; [naive_solver|eauto].
Qed.

(** A chain is walked to its end by the loop of [CheckInvariants]. *)
Lemma check_chain_ok cells l : ∀ i fuel,
  chain cells i MEDIUM_PAGE_CELL_COUNT l → l ≠ [] → (length l ≤ fuel)%nat →
  check_chain fuel cells i = Done true.
Proof.
  induction l as [|c l IH]; intros i fuel H Hne Hf; [done|].
  destruct fuel as [|fuel]; simpl in Hf; [lia|].
  destruct H as (Hl & Hc & H). simpl. rewrite Hl. simpl.
  pose proof (chain_length _ _ _ _ H). unfold Next in *.
  rewrite (proj2 (Z.leb_gt _ _)) by lia.
  rewrite (proj2 (Z.ltb_ge _ _)) by lia.
  destruct (Z.eqb_spec (i + size_ c) MEDIUM_PAGE_CELL_COUNT) as [E|E]; [done|].
  apply IH; [done| |lia]. intros ->. simpl in H. done.
Qed.

Lemma page_ok_check fuel p l :
  page_ok p l → (Z.to_nat MEDIUM_PAGE_CELL_COUNT ≤ fuel)%nat →
  CheckInvariants fuel p = Done true.
Proof.
  intros [_ Hch Hcur] Hf. unfold CheckInvariants.
  pose proof (chain_pos _ _ _ _ Hch) as Hp.
  pose proof (chain_total _ _ _ _ Hch) as Ht.
  assert (0 ≤ curBlock_ p < MEDIUM_PAGE_CELL_COUNT) as Hb.
  { destruct Hcur as [->|Hin]; [lia|]. apply (starts_ge _ _ _ Hp) in Hin. lia. }
  rewrite (proj2 (Z.ltb_ge _ _)) by lia.
  rewrite (proj2 (Z.leb_gt _ _)) by lia. simpl.
  apply (check_chain_ok _ l); [done| |by eapply chain_fuel].
  intros ->. simpl in Hch. lia.
Qed.

(** ** The cursor search *)

Lemma scan_list_app n L1 L2 m :
  scan_list n (L1 ++ L2) m =
  if (scan_list n L1 m).1 then scan_list n L1 m
  else scan_list n L2 (scan_list n L1 m).2.
Proof.
  revert m. induction L1 as [|[b c] L1 IH]; intros m; simpl; [done|].
  destruct (free_larger m.2 c); [destruct (n <=? size_ c)|]; simpl; auto.
Qed.

Lemma scan_list_nofit n L m :
  Forall (λ h, fits n h.2 = false) L → scan_list n L m = (false, max_free L m).
Proof.
  revert m. induction L as [|[b c] L IH]; intros m HL; simpl; [done|].
  inversion HL as [|?? Hc HL']; subst. simpl in Hc.
  unfold free_larger, fits in *.
  destruct (isAllocated_ c); simpl in *; [auto|].
  rewrite Hc. destruct (m.2 <? size_ c); auto.
Qed.

(** The first cell that fits is taken, provided the running maximum is
    below the request (or still the sentinel's 0). *)
Lemma scan_list_hit n L1 b c L2 m :
  Forall (λ h, fits n h.2 = false) L1 → fits n c = true →
  Forall (λ h, 0 < size_ h.2) (L1 ++ (b, c) :: L2) →
  m.2 < n ∨ m.2 = 0 →
  scan_list n (L1 ++ (b, c) :: L2) m = (true, (b, size_ c)).
Proof.
  revert m. induction L1 as [|[b' c'] L1 IH]; intros m H1 Hc Hp Hm; simpl.
  - inversion Hp; subst; simpl in *. unfold fits, free_larger in *.
    apply andb_true_iff in Hc as [Hf Hn]. rewrite Hf. apply Z.leb_le in Hn.
    rewrite (proj2 (Z.ltb_lt _ _)) by lia. simpl.
    by rewrite (proj2 (Z.leb_le _ _)).
  - inversion H1 as [|?? Hc' H1']; subst. inversion Hp; subst. simpl in *.
    unfold fits, free_larger in *.
    destruct (isAllocated_ c'); simpl in *; [by apply IH|].
    rewrite Hc'. apply Z.leb_gt in Hc'.
    destruct (m.2 <? size_ c'); apply IH; simpl; auto; lia.
Qed.

Lemma max_free_spec L : ∀ m,
  (max_free L m = m ∧
   Forall (λ h, isAllocated_ h.2 = false → size_ h.2 ≤ m.2) L) ∨
  (∃ L1 c L2, L = L1 ++ ((max_free L m).1, c) :: L2 ∧ isAllocated_ c = false ∧
     (max_free L m).2 = size_ c ∧ m.2 < size_ c ∧
     Forall (λ h, isAllocated_ h.2 = false → size_ h.2 < size_ c) L1 ∧
     Forall (λ h, isAllocated_ h.2 = false → size_ h.2 ≤ size_ c) L2).
Proof.
  induction L as [|[b c] L IH]; intros m; simpl; [by left|].
  unfold free_larger.
  destruct (isAllocated_ c) eqn:Ha; simpl.
  - destruct (IH m) as [[E HF]|(L1 & c' & L2 & E & ? & ? & ? & H1 & H2)].
    + left. split; [done|]. constructor; [simpl; congruence|done].
    + right. exists ((b, c) :: L1), c', L2. rewrite E at 1.
      split_and!; try done. constructor; [simpl; congruence|done].
  - destruct (Z.ltb_spec m.2 (size_ c)) as [Hlt|Hge].
    + right.
      destruct (IH (b, size_ c)) as [[E HF]|(L1 & c' & L2 & E & ? & ? & ? & H1 & H2)].
      * exists [], c, L. rewrite E. simpl. split_and!; try done; constructor.
      * simpl in *. exists ((b, c) :: L1), c', L2. rewrite E at 1.
        split_and!; try done; [lia|]. constructor; [simpl; lia|done].
    + destruct (IH m) as [[E HF]|(L1 & c' & L2 & E & ? & ? & ? & H1 & H2)].
      * left. split; [done|]. constructor; [simpl; lia|done].
      * right. exists ((b, c) :: L1), c', L2. rewrite E at 1.
        split_and!; try done. constructor; [simpl; lia|done].
Qed.

Lemma max_free_earliest L :
  Forall (λ h, 0 < size_ h.2) L → earliest_max L (max_free L (0, 0)).1.
Proof.
  intros Hp. destruct (max_free_spec L (0, 0)) as [[E HF]|(L1 & c & L2 & E & ? & ? & ? & ? & ?)].
  - left. rewrite E. split; [done|].
    rewrite Forall_forall in *. intros h Hh.
    specialize (Hp h Hh). specialize (HF h Hh). simpl in *.
    destruct (isAllocated_ h.2); [done|]. specialize (HF eq_refl). lia.
  - right. by exists L1, c, L2.
Qed.

(** The cursor picked by a scan is the running maximum it started with or a
    free cell of the list. *)
Lemma scan_list_free n L m :
  (scan_list n L m).2 = m ∨
  ∃ c, ((scan_list n L m).2.1, c) ∈ L ∧ isAllocated_ c = false ∧
       (scan_list n L m).2.2 = size_ c.
Proof.
  revert m. induction L as [|[b c] L IH]; intros m; simpl; [by left|].
  unfold free_larger. destruct (isAllocated_ c) eqn:Ha; simpl.
  - destruct (IH m) as [?|(c' & ? & ? & ?)]; [by left|].
    right. exists c'. split_and!; try done. apply elem_of_cons; by right.
  - destruct (m.2 <? size_ c).
    + right. destruct (n <=? size_ c); simpl.
      * exists c. split_and!; try done. apply elem_of_cons; by left.
      * destruct (IH (b, size_ c)) as [E|(c' & ? & ? & ?)].
        -- rewrite E. simpl. exists c. split_and!; try done. apply elem_of_cons; by left.
        -- exists c'. split_and!; try done. apply elem_of_cons; by right.
    + destruct (IH m) as [?|(c' & ? & ? & ?)]; [by left|].
      right. exists c'. split_and!; try done. apply elem_of_cons; by right.
Qed.

(** The loop of the source computes [scan_list] on the chain it walks. *)
Lemma scan_refines n cells stop l : ∀ b fuel mb m,
  chain cells b stop l → (length l ≤ fuel)%nat → load cells mb = Done m →
  scan fuel cells n stop b mb =
    Done ((scan_list n (headers b l) (mb, size_ m)).1,
          (scan_list n (headers b l) (mb, size_ m)).2.1) ∧
  ∃ m', load cells (scan_list n (headers b l) (mb, size_ m)).2.1 = Done m' ∧
        size_ m' = (scan_list n (headers b l) (mb, size_ m)).2.2.
Proof.
  induction l as [|c l IH]; intros b fuel mb m H Hf Hm.
  - simpl in H. subst. split; [|by exists m].
    destruct fuel; simpl; by rewrite bool_decide_eq_true_2.
  - destruct fuel as [|fuel]; simpl in Hf; [lia|].
    pose proof (chain_length _ _ _ _ H) as Hlen. simpl in Hlen.
    destruct H as (Hl & Hc & H). simpl.
    rewrite bool_decide_eq_false_2 by lia. rewrite Hl. simpl.
    unfold free_larger. destruct (isAllocated_ c); simpl.
    + apply IH; [done|lia|done].
    + rewrite Hm. simpl. destruct (size_ m <? size_ c); simpl.
      * destruct (n <=? size_ c); simpl; [split; [done|by exists c]|].
        destruct (IH (Next b c) fuel b c) as [E1 E2]; [done|lia|done|].
        by rewrite E1.
      * apply IH; [done|lia|done].
Qed.

Lemma filter_all {A} (P : A → Prop) `{∀ x, Decision (P x)} (L : list A) :
  Forall P L → filter P L = L.
Proof.
  induction 1 as [|x L Hx HL IH]; [done|].
  rewrite filter_cons_True by done. by rewrite IH.
Qed.

Lemma filter_none {A} (P : A → Prop) `{∀ x, Decision (P x)} (L : list A) :
  Forall (λ x, ¬ P x) L → filter P L = [].
Proof.
  induction 1 as [|x L Hx HL IH]; [done|].
  by rewrite filter_cons_False.
Qed.

Lemma headers_range i l :
  Forall (λ c, 0 < size_ c) l →
  Forall (λ h : Z * Cell, i ≤ h.1 < i + total l) (headers i l).
Proof.
  intros Hp. apply Forall_forall. intros [k c] Hin. simpl.
  apply (starts_ge _ _ _ Hp). rewrite <- headers_starts.
  apply list_elem_of_fmap. by exists (k, c).
Qed.

Lemma headers_pos i l :
  Forall (λ c, 0 < size_ c) l → Forall (λ h : Z * Cell, 0 < size_ h.2) (headers i l).
Proof.
  rewrite <- (headers_cells i l) at 1. by rewrite Forall_fmap.
Qed.

(** The scan order, once the chain is cut at the cell the scan starts from. *)
Lemma scan_order_split p l :
  page_ok p l →
  ∃ l1 l2, l = l1 ++ l2 ∧ l2 ≠ [] ∧ scan_start p = 1 + total l1 ∧
           scan_order p l = headers (scan_start p) l2 ++ headers 1 l1.
Proof.
  intros [_ Hch Hcur].
  pose proof (chain_pos _ _ _ _ Hch) as Hp.
  assert (∃ l1 l2, l = l1 ++ l2 ∧ l2 ≠ [] ∧ scan_start p = 1 + total l1)
    as (l1 & l2 & -> & Hne & Hs).
  { unfold scan_start. destruct Hcur as [->|Hin].
    - exists [], l. simpl. split_and!; [done| |done].
      intros ->. simpl in Hch. lia.
    - pose proof (starts_ge _ _ _ Hp Hin).
      rewrite bool_decide_eq_false_2 by lia.
      apply starts_split in Hin as (l1 & c & l2 & -> & ->).
      by exists l1, (c :: l2). }
  exists l1, l2. split_and!; try done.
  apply Forall_app in Hp as [Hp1 Hp2].
  unfold scan_order. rewrite headers_app, <- Hs, !filter_app.
  rewrite (filter_none _ (headers 1 l1)), (filter_all _ (headers _ l2)).
  - rewrite (filter_all _ (headers 1 l1)), (filter_none _ (headers _ l2)).
    + by rewrite app_nil_r.
    + eapply Forall_impl; [apply (headers_range _ _ Hp2)|]. simpl. lia.
    + eapply Forall_impl; [apply (headers_range _ _ Hp1)|]. simpl. lia.
  - eapply Forall_impl; [apply (headers_range _ _ Hp2)|]. simpl. lia.
  - eapply Forall_impl; [apply (headers_range _ _ Hp1)|]. simpl. lia.
Qed.

Lemma scan_order_headers p l h :
  h ∈ scan_order p l → h ∈ headers 1 l.
Proof.
  unfold scan_order. rewrite elem_of_app, !list_elem_of_filter. naive_solver.
Qed.

(** [UpdateCurBlock] returns, leaves the cells alone and moves the cursor to
    the cell [scan_list] picks in the scan order. *)
Lemma UpdateCurBlock_scan fuel p l n :
  page_ok p l → (Z.to_nat MEDIUM_PAGE_CELL_COUNT ≤ fuel)%nat →
  UpdateCurBlock fuel p n =
    Done {| curBlock_ := (scan_list n (scan_order p l) (0, 0)).2.1;
            cells_ := cells_ p |}.
Proof.
  intros Hok Hf.
  destruct (scan_order_split _ _ Hok) as (l1 & l2 & -> & Hne & Hs & ->).
  destruct Hok as [(c0 & Hl0 & Hz) Hch _].
  apply chain_app in Hch as [Hc1 Hc2]. rewrite <- Hs in *.
  pose proof (chain_length _ _ _ _ Hc1). pose proof (chain_length _ _ _ _ Hc2).
  pose proof (total_length _ (chain_pos _ _ _ _ Hc1)).
  unfold UpdateCurBlock. fold (scan_start p).
  destruct (scan_refines n _ _ _ _ fuel 0 c0 Hc2) as [E1 (m1 & Hm1 & Hs1)];
    [lia|done|].
  rewrite Hz in *. rewrite E1, scan_list_app. simpl.
  destruct (scan_list n (headers (scan_start p) l2) (0, 0)) as [f1 [mb1 msz1]] eqn:E.
  simpl in *. destruct f1; [done|].
  destruct (scan_refines n _ _ _ _ fuel mb1 m1 Hc1) as [E2 _]; [lia|done|].
  rewrite E2, Hs1. simpl. done.
Qed.

(** ** Allocation in a cell *)

Lemma u32_small z : 0 ≤ z ≤ MEDIUM_PAGE_CELL_COUNT → u32 z = z.
Proof. intros. unfold u32. apply Z.mod_small. lia. Qed.

Lemma u32_range z : 0 ≤ u32 z.
Proof. unfold u32, UINT32_MOD. apply Z.mod_pos_bound. lia. Qed.

(** One cell of a chain is replaced by the cells [mid] that take its room. *)
Lemma chain_replace cells cells' i j l1 c l2 mid :
  chain cells i j (l1 ++ c :: l2) →
  (∀ x, x < i + total l1 ∨ i + total l1 + size_ c ≤ x → cells' !! x = cells !! x) →
  chain cells' (i + total l1) (i + total l1 + size_ c) mid →
  chain cells' i j (l1 ++ mid ++ l2).
Proof.
  intros H Hfr Hmid. apply chain_app in H as [H1 H2].
  simpl in H2. destruct H2 as (_ & _ & H2). unfold Next in H2.
  pose proof (chain_total _ _ _ _ Hmid) as Ht.
  apply chain_app. split.
  - eapply chain_frame; [done|]. intros x ?. apply Hfr. lia.
  - apply chain_app. replace (i + total l1 + total mid) with (i + total l1 + size_ c) by lia.
    split; [done|].
    eapply chain_frame; [done|]. intros x ?. apply Hfr. lia.
Qed.

Lemma starts_mid i l1 mid l2 :
  mid ≠ [] → i + total l1 ∈ starts i (l1 ++ mid ++ l2).
Proof.
  intros Hne. rewrite starts_app. apply elem_of_app. right.
  destruct mid; [done|]. simpl. apply elem_of_cons. by left.
Qed.

(** A failed [Cell::TryAllocate] writes nothing. *)
Lemma Cell_TryAllocate_fail cells b n cells' :
  Cell_TryAllocate cells b n = Done (None, cells') → cells' = cells.
Proof.
  unfold Cell_TryAllocate, obind. intros H.
  repeat case_match; simplify_eq; done.
Qed.

(** [Cell::TryAllocate] at the cursor returns and keeps the page well formed. *)
Lemma Cell_TryAllocate_ok p l n :
  page_ok p l → 0 ≤ n →
  ∃ r cells' l', Cell_TryAllocate (cells_ p) (curBlock_ p) n = Done (r, cells') ∧
                 page_ok {| curBlock_ := curBlock_ p; cells_ := cells' |} l'.
Proof.
  intros [(c0 & Hl0 & Hz) Hch Hcur] Hn.
  destruct Hcur as [E0|Hin].
  - unfold Cell_TryAllocate. rewrite E0, Hl0. simpl.
    destruct (isAllocated_ c0 || (size_ c0 <? n)) eqn:Hfail.
    + exists None, (cells_ p), l. split; [done|].
      split; simpl; [by exists c0|done|by left].
    + apply orb_false_iff in Hfail as [Ha Hlt]. apply Z.ltb_ge in Hlt.
      rewrite store_Done by lia. simpl.
      rewrite (proj2 (Z.ltb_ge _ _)) by lia. simpl.
      eexists _, _, l. split; [done|]. split; simpl.
      * eexists. split; [apply load_insert_eq; lia|done].
      * eapply chain_frame; [done|]. intros k ?. apply lookup_insert_ne. lia.
      * by left.
  - pose proof (starts_split _ _ _ Hin) as (l1 & c & l2 & -> & Hk).
    pose proof Hch as Hch'. apply chain_app in Hch' as [Hc1 Hc2].
    rewrite <- Hk in *. simpl in Hc2. destruct Hc2 as (Hl & Hc & Hc2).
    pose proof (chain_length _ _ _ _ Hc1). pose proof (chain_length _ _ _ _ Hc2).
    unfold Next in *.
    unfold Cell_TryAllocate. rewrite Hl. simpl.
    destruct (isAllocated_ c || (size_ c <? n)) eqn:Hfail.
    + exists None, (cells_ p), (l1 ++ c :: l2). split; [done|].
      split; simpl; [by exists c0|done|by right].
    + apply orb_false_iff in Hfail as [Ha Hlt]. apply Z.ltb_ge in Hlt.
      rewrite store_Done by lia. simpl.
      assert (∀ cells', (∀ x, x < curBlock_ p ∨ curBlock_ p + size_ c ≤ x →
                              cells' !! x = cells_ p !! x) →
                ∃ c0', load cells' 0 = Done c0' ∧ size_ c0' = 0) as Hsent.
      { intros cells' Hfr. exists c0. split; [|done].
        rewrite <- Hl0. apply load_ext, Hfr. lia. }
      destruct (Z.ltb_spec n (size_ c)) as [Hlt'|Hge].
      * rewrite store_Done by lia. simpl. rewrite store_Done by lia. simpl.
        assert (u32 (size_ c - n) = size_ c - n) as Hu by (apply u32_small; lia).
        destruct (decide (n = 0)) as [->|Hn0].
        -- eexists _, _, (l1 ++ [c] ++ l2). split; [done|].
           assert (∀ x, x < curBlock_ p ∨ curBlock_ p + size_ c ≤ x →
             <[curBlock_ p + 0 := Cell_new (size_ c - 0)]>
               (<[curBlock_ p := {| isAllocated_ := true; size_ := 0 |}]>
                 (<[curBlock_ p := {| isAllocated_ := true; size_ := size_ c |}]>
                   (cells_ p))) !! x = cells_ p !! x) as Hfr.
           { intros x ?. rewrite !lookup_insert_ne by lia. done. }
           split; cbn [curBlock_ cells_]; [by apply Hsent| |right; rewrite Hk; by apply starts_mid].
           eapply chain_replace; [exact Hch|by rewrite <- Hk|].
           rewrite <- Hk. simpl. unfold Next. split_and!; [|done|done].
           rewrite Z.add_0_r. rewrite load_insert_eq by lia.
           f_equal. unfold Cell_new. rewrite Hu, Z.sub_0_r.
           destruct c; simpl in *; by subst.
        -- eexists _, _, (l1 ++ [{| isAllocated_ := true; size_ := n |};
                                 Cell_new (size_ c - n)] ++ l2).
           split; [done|].
           assert (∀ x, x < curBlock_ p ∨ curBlock_ p + size_ c ≤ x →
             <[curBlock_ p + n := Cell_new (size_ c - n)]>
               (<[curBlock_ p := {| isAllocated_ := true; size_ := n |}]>
                 (<[curBlock_ p := {| isAllocated_ := true; size_ := size_ c |}]>
                   (cells_ p))) !! x = cells_ p !! x) as Hfr.
           { intros x ?. rewrite !lookup_insert_ne by lia. done. }
           split; cbn [curBlock_ cells_]; [by apply Hsent| |right; rewrite Hk; by apply starts_mid].
           eapply chain_replace; [exact Hch|by rewrite <- Hk|].
           rewrite <- Hk. simpl. unfold Next. simpl. rewrite Hu.
           split_and!; [|lia| |lia|lia].
           ++ rewrite load_insert_ne by lia. apply load_insert_eq. lia.
           ++ apply load_insert_eq. lia.
      * simpl.
        eexists _, _, (l1 ++ [{| isAllocated_ := true; size_ := size_ c |}] ++ l2).
        split; [done|].
        assert (∀ x, x < curBlock_ p ∨ curBlock_ p + size_ c ≤ x →
             <[curBlock_ p := {| isAllocated_ := true; size_ := size_ c |}]>
                   (cells_ p) !! x = cells_ p !! x) as Hfr.
        { intros x ?. rewrite !lookup_insert_ne by lia. done. }
        split; cbn [curBlock_ cells_]; [by apply Hsent| |right; rewrite Hk; by apply starts_mid].
        eapply chain_replace; [exact Hch|by rewrite <- Hk|].
        rewrite <- Hk. simpl. unfold Next. simpl.
        split_and!; [|lia|lia]. apply load_insert_eq. lia.
Qed.

(** ** The first pass of the sweep *)

Lemma sweep_cell_size marks h : size_ (sweep_cell marks h) = size_ h.2.
Proof. unfold sweep_cell. by case_match. Qed.

Lemma headers_reclaimed marks b l :
  headers b (reclaimed marks b l) = (λ h, (h.1, sweep_cell marks h)) <$> headers b l.
Proof.
  unfold reclaimed. revert b. induction l as [|c l IH]; intros b; csimpl; [done|].
  f_equal. unfold Next. rewrite sweep_cell_size. csimpl. apply IH.
Qed.

Lemma starts_reclaimed marks b l : starts b (reclaimed marks b l) = starts b l.
Proof.
  rewrite <- !headers_starts, headers_reclaimed, <- list_fmap_compose.
  by apply list_fmap_ext.
Qed.

Lemma reclaimed_unmark marks x b l :
  Forall (λ c, 0 < size_ c) l → x < data_ b →
  reclaimed (marks ∖ {[x]}) b l = reclaimed marks b l ∧
  existsb (live (marks ∖ {[x]})) (headers b l) = existsb (live marks) (headers b l).
Proof.
  intros Hp. revert b. unfold reclaimed, data_.
  induction Hp as [|c l Hc Hp IH]; intros b Hx; csimpl; [done|].
  destruct (IH (Next b c)) as [-> ->]; [unfold Next; lia|].
  assert (bool_decide (data_ b ∈ marks ∖ {[x]}) = bool_decide (data_ b ∈ marks)) as E.
  { apply bool_decide_ext. unfold data_. set_solver by lia. }
  unfold sweep_cell, live. csimpl. by rewrite E.
Qed.

Lemma reclaim_S fuel cells marks alive block :
  reclaim (S fuel) cells marks alive block =
  if bool_decide (block = MEDIUM_PAGE_CELL_COUNT) then Done (cells, marks, alive)
  else
    do c <- load cells block ;;
    if isAllocated_ c then
      let '(marked, marks') := TryResetMark (data_ block) marks in
      if marked then reclaim fuel cells marks' true (Next block c)
      else
        do cells' <- store cells block (Deallocate c) ;;
        do c' <- load cells' block ;;
        reclaim fuel cells' marks' alive (Next block c')
    else reclaim fuel cells marks alive (Next block c).
Proof. done. Qed.

(** The first loop of [Sweep] on a chain. *)
Lemma reclaim_spec l : ∀ b fuel cells marks alive,
  chain cells b MEDIUM_PAGE_CELL_COUNT l → 0 ≤ b → (length l ≤ fuel)%nat →
  ∃ cells',
    reclaim fuel cells marks alive b =
      Done (cells', marks ∖ queried b l,
            alive || existsb (live marks) (headers b l)) ∧
    chain cells' b MEDIUM_PAGE_CELL_COUNT (reclaimed marks b l) ∧
    (∀ k, k < b → cells' !! k = cells !! k) ∧
    (Forall (λ c, isAllocated_ c = false) l → cells' = cells).
Proof.
  induction l as [|c l IH]; intros b fuel cells marks alive H Hb Hf.
  - simpl in H. subst. exists cells. split_and!; try done.
    destruct fuel; simpl; rewrite bool_decide_eq_true_2 by done;
      rewrite orb_false_r; do 3 f_equal; set_solver.
  - destruct fuel as [|fuel]; simpl in Hf; [lia|].
    pose proof (chain_length _ _ _ _ H) as Hlen. simpl in Hlen.
    pose proof (chain_pos _ _ _ _ H) as Hp. inversion Hp as [|?? _ Hp']; subst.
    destruct H as (Hl & Hc & H).
    assert (reclaimed marks b (c :: l) =
            sweep_cell marks (b, c) :: reclaimed marks (Next b c) l) as -> by done.
    assert (Next b (sweep_cell marks (b, c)) = Next b c) as Hnext
      by (unfold Next; by rewrite sweep_cell_size).
    cbn [chain headers existsb queried]. rewrite Hnext, sweep_cell_size.
    rewrite reclaim_S, bool_decide_eq_false_2 by lia. rewrite Hl.
    unfold live at 1, sweep_cell, TryResetMark. cbn [obind fst snd].
    destruct (isAllocated_ c) eqn:Ha; cbn [andb negb].
    + destruct (reclaimed_unmark marks (data_ b) (Next b c) l Hp') as [Er Ee];
        [unfold data_, Next; lia|].
      assert (marks ∖ {[data_ b]} ∖ queried (Next b c) l =
              marks ∖ ({[data_ b]} ∪ queried (Next b c) l)) as Em by set_solver.
      destruct (bool_decide (data_ b ∈ marks)) eqn:Hm; cbn [negb].
      * destruct (IH (Next b c) fuel cells (marks ∖ {[data_ b]}) true)
          as (cells' & E & Hch' & Hfr & _); [done|unfold Next; lia|lia|].
        exists cells'. rewrite E, Em. rewrite Er in Hch'.
        split_and!; [by rewrite orb_true_r| |done|done|
                     intros; apply Hfr; unfold Next; lia|].
        -- rewrite <- Hl. apply load_ext, Hfr. unfold Next. lia.
        -- intros HF. inversion HF; subst. congruence.
      * rewrite store_Done by lia. cbn [obind]. rewrite load_insert_eq by lia.
        cbn [obind]. change (Next b (Deallocate c)) with (Next b c).
        destruct (IH (Next b c) fuel (<[b := Deallocate c]> cells)
                    (marks ∖ {[data_ b]}) alive)
          as (cells' & E & Hch' & Hfr & _); [|unfold Next; lia|lia|].
        { eapply chain_frame; [done|]. intros k ?. apply lookup_insert_ne.
          unfold Next in *. lia. }
        exists cells'. rewrite E, Ee, Em. rewrite Er in Hch'.
        split_and!; [done| |done|done| |].
        -- rewrite <- (load_insert_eq cells b (Deallocate c)) by lia.
           apply load_ext, Hfr. unfold Next. lia.
        -- intros k ?. rewrite Hfr by (unfold Next; lia).
           apply lookup_insert_ne. lia.
        -- intros HF. inversion HF; subst. congruence.
    + destruct (IH (Next b c) fuel cells marks alive)
        as (cells' & E & Hch' & Hfr & Hid); [done|unfold Next; lia|lia|].
      exists cells'. rewrite E. rewrite union_empty_l_L.
      split_and!; [done| |done|done|intros; apply Hfr; unfold Next; lia|].
      * rewrite <- Hl. apply load_ext, Hfr. unfold Next. lia.
      * intros HF. inversion HF; subst. auto.
Qed.

(** ** The second pass of the sweep *)

Lemma merge_alloc c r : isAllocated_ c = true → merge c r = c :: r.
Proof. intros Ha. destruct r; simpl; [done|]. by rewrite Ha. Qed.

Lemma merge_stops c r : stops r → merge c r = c :: r.
Proof.
  destruct r as [|d r]; simpl; [done|]. intros ->. by rewrite andb_false_r.
Qed.

Lemma absorb_list_flag c l : isAllocated_ (absorb_list c l).1 = isAllocated_ c.
Proof.
  revert c. induction l as [|n l IH]; intros c; simpl; [done|].
  destruct (isAllocated_ n); [done|]. by rewrite IH.
Qed.

Lemma absorb_list_length c l : (length (absorb_list c l).2 ≤ length l)%nat.
Proof.
  revert c. induction l as [|n l IH]; intros c; simpl; [done|].
  destruct (isAllocated_ n); simpl; [lia|]. specialize (IH
    {| isAllocated_ := isAllocated_ c; size_ := size_ c + size_ n |}). lia.
Qed.

Lemma absorb_list_stops c l : stops l → absorb_list c l = (c, l).
Proof. destruct l as [|n l]; simpl; [done|]. by intros ->. Qed.

Lemma absorb_list_rest_stops c l : stops (absorb_list c l).2.
Proof.
  revert c. induction l as [|n l IH]; intros c; simpl; [done|].
  destruct (isAllocated_ n) eqn:E; simpl; [done|]. apply IH.
Qed.

Lemma coalesced_stops l : stops l → stops (coalesced l).
Proof.
  destruct l as [|n l]; simpl; [done|]. intros Ha. by rewrite merge_alloc.
Qed.

(** The list the loops of the second pass build, cell by cell, is the list
    with its free runs merged. *)
Lemma coalesced_absorb c l :
  isAllocated_ c = false →
  coalesced (c :: l) = (absorb_list c l).1 :: coalesced (absorb_list c l).2.
Proof.
  revert c. induction l as [|n l IH]; intros c Hc; [done|].
  cbn [absorb_list]. destruct (isAllocated_ n) eqn:Hn.
  - cbn [fst snd]. change (coalesced (c :: n :: l)) with (merge c (coalesced (n :: l))).
    apply merge_stops, coalesced_stops. done.
  - rewrite <- IH by done. cbn [coalesced].
    destruct (coalesced l) as [|d r]; simpl; rewrite Hc, Hn; simpl; [done|].
    destruct (isAllocated_ d); simpl; rewrite ?Hc, ?Hn; simpl;
      by rewrite ?Z.add_assoc.
Qed.

Lemma coalesced_separated l : separated l → coalesced l = l.
Proof.
  induction l as [|c l IH]; [done|]. destruct l as [|d l]; [done|].
  intros [Hcd Hs]. cbn [coalesced] in *. rewrite IH by done.
  simpl. destruct Hcd as [->| ->]; by rewrite ?andb_false_r.
Qed.

Lemma separated_merge c r : separated r → separated (merge c r).
Proof.
  destruct r as [|d r]; [done|]. intros Hs. simpl.
  destruct (isAllocated_ c) eqn:Hc; simpl.
  - split; [by left|done].
  - destruct (isAllocated_ d) eqn:Hd; simpl.
    + split; [by right|done].
    + destruct r as [|e r]; [done|]. destruct Hs as [[?|?] ?]; [congruence|].
      simpl. split; [by right|done].
Qed.

Lemma separated_coalesced l : separated (coalesced l).
Proof. induction l; [done|]. by apply separated_merge. Qed.

Lemma total_coalesced l : total (coalesced l) = total l.
Proof.
  induction l as [|c l IH]; [done|]. cbn [coalesced total]. rewrite <- IH.
  destruct (coalesced l) as [|d r]; simpl; [done|].
  destruct (negb (isAllocated_ c) && negb (isAllocated_ d)); simpl; lia.
Qed.

(** An allocated cell of the coalesced list is a cell of the list, at the
    same place. *)
Lemma headers_coalesced_alloc l : ∀ b k c,
  (k, c) ∈ headers b (coalesced l) → isAllocated_ c = true → (k, c) ∈ headers b l.
Proof.
  induction l as [|c0 l IH]; intros b k c Hin Ha; [done|].
  cbn [coalesced headers] in *. specialize (IH (Next b c0) k c).
  destruct (coalesced l) as [|d r] eqn:E; simpl in Hin.
  - apply elem_of_cons in Hin as [?|Hin]; [|by apply elem_of_nil in Hin].
    apply elem_of_cons. by left.
  - destruct (negb (isAllocated_ c0) && negb (isAllocated_ d)) eqn:Hm;
      simpl in Hin; apply elem_of_cons in Hin as [Hin|Hin].
    + simplify_eq.
    + apply elem_of_cons. right. apply IH; [|done].
      simpl. apply elem_of_cons. right. unfold Next in *. simpl in Hin.
      by rewrite Z.add_assoc in Hin.
    + apply elem_of_cons. by left.
    + apply elem_of_cons. right. by apply IH.
Qed.

Lemma existsb_coalesced l :
  existsb isAllocated_ (coalesced l) = existsb isAllocated_ l.
Proof.
  induction l as [|c l IH]; [done|]. cbn [coalesced existsb]. rewrite <- IH.
  destruct (coalesced l) as [|d r]; simpl; [done|].
  destruct (isAllocated_ c) eqn:Hc, (isAllocated_ d) eqn:Hd; simpl;
    rewrite ?Hc, ?Hd; done.
Qed.

Lemma sizes_of_free_changed_refl cells : sizes_of_free_changed cells cells.
Proof. intros k. by left. Qed.

Lemma sizes_of_free_changed_trans cells1 cells2 cells3 :
  sizes_of_free_changed cells1 cells2 → sizes_of_free_changed cells2 cells3 →
  sizes_of_free_changed cells1 cells3.
Proof.
  intros H12 H23 k. destruct (H12 k) as [E1|(c & c' & ? & ? & ? & ?)],
    (H23 k) as [E2|(d & d' & ? & ? & ? & ?)].
  - left. congruence.
  - right. exists d, d'. split_and!; congruence.
  - right. exists c, c'. split_and!; congruence.
  - right. exists c, d'. split_and!; congruence.
Qed.

Lemma sizes_of_free_changed_insert cells b c sz :
  cells !! b = Some c → isAllocated_ c = false →
  sizes_of_free_changed cells (<[b := {| isAllocated_ := isAllocated_ c; size_ := sz |}]> cells).
Proof.
  intros Hb Hc k. destruct (decide (k = b)) as [->|Hne].
  - right. eexists _, _. rewrite lookup_insert_eq. split_and!; done.
  - left. by rewrite lookup_insert_ne.
Qed.

Lemma absorb_unfold fuel cells block :
  absorb fuel cells block =
  do c <- load cells block ;;
  if bool_decide (Next block c = MEDIUM_PAGE_CELL_COUNT) then Done cells
  else
    do n <- load cells (Next block c) ;;
    if isAllocated_ n then Done cells
    else
      match fuel with
      | O => Timeout
      | S fuel' =>
        do cells' <- store cells block
                       {| isAllocated_ := isAllocated_ c; size_ := u32 (size_ c + size_ n) |} ;;
        absorb fuel' cells' block
      end.
Proof. by destruct fuel. Qed.

(** The [while] loop of the second pass on a chain that starts with the free
    cell [c]. *)
Lemma absorb_spec b l : ∀ c fuel cells,
  chain cells b MEDIUM_PAGE_CELL_COUNT (c :: l) → 0 ≤ b →
  isAllocated_ c = false → (length l ≤ fuel)%nat →
  ∃ cells',
    absorb fuel cells b = Done cells' ∧
    chain cells' b MEDIUM_PAGE_CELL_COUNT ((absorb_list c l).1 :: (absorb_list c l).2) ∧
    (∀ k, k ≠ b → cells' !! k = cells !! k) ∧
    sizes_of_free_changed cells cells' ∧
    (stops l → cells' = cells).
Proof.
  induction l as [|n l IH]; intros c fuel cells H Hb Hc Hf.
  - exists cells. destruct H as (Hl & Hs & H). simpl in H.
    rewrite absorb_unfold, Hl. cbn [obind]. rewrite bool_decide_eq_true_2 by done.
    split_and!; try done. apply sizes_of_free_changed_refl.
  - pose proof (chain_length _ _ _ _ H) as Hlen. simpl in Hlen.
    destruct H as (Hl & Hs & Hl' & Hs' & H).
    pose proof (chain_length _ _ _ _ H) as Hlen'. unfold Next in *.
    rewrite absorb_unfold, Hl. cbn [obind]. unfold Next.
    rewrite bool_decide_eq_false_2 by lia. rewrite Hl'. cbn [obind absorb_list].
    destruct (isAllocated_ n) eqn:Hn.
    + exists cells. split_and!; try done. apply sizes_of_free_changed_refl.
    + destruct fuel as [|fuel]; simpl in Hf; [lia|].
      rewrite store_Done by lia. cbn [obind].
      rewrite u32_small by lia.
      apply load_Done in Hl as Hl2. destruct Hl2 as [_ Hl2].
      destruct (IH {| isAllocated_ := isAllocated_ c; size_ := size_ c + size_ n |} fuel
                  (<[b := {| isAllocated_ := isAllocated_ c; size_ := size_ c + size_ n |}]> cells))
        as (cells' & E & Hch & Hfr & Hrel & _); [|done|done|lia|].
      { cbn [chain]. unfold Next. simpl. split_and!; [apply load_insert_eq; lia|lia|].
        rewrite Z.add_assoc. eapply chain_frame; [done|].
        intros k ?. apply lookup_insert_ne. lia. }
      exists cells'. split_and!; [done|done| | |].
      * intros k ?. rewrite Hfr by done. by apply lookup_insert_ne.
      * eapply sizes_of_free_changed_trans; [|done].
        by apply sizes_of_free_changed_insert.
      * simpl. congruence.
Qed.

Lemma coalesce_S fuel cells block maxBlock :
  coalesce (S fuel) cells block maxBlock =
  if bool_decide (block = MEDIUM_PAGE_CELL_COUNT) then Done (cells, maxBlock)
  else
    do c <- load cells block ;;
    if isAllocated_ c then coalesce fuel cells (Next block c) maxBlock
    else
      do cells' <- absorb (S fuel) cells block ;;
      do c' <- load cells' block ;;
      do m <- load cells' maxBlock ;;
      coalesce fuel cells' (Next block c')
        (if size_ m <? size_ c' then block else maxBlock).
Proof. done. Qed.

Lemma separated_tail c l : separated (c :: l) → separated l.
Proof. destruct l; [done|]. by intros [_ ?]. Qed.

Lemma separated_free_stops c l :
  separated (c :: l) → isAllocated_ c = false → stops l.
Proof. destruct l; [done|]. intros [[?|?] _] ?; [congruence|done]. Qed.

(** The second loop of [Sweep] on a chain: the free runs are merged and
    [maxBlock] follows [max_free]. *)
Lemma coalesce_spec : ∀ (N : nat) l, (length l ≤ N)%nat →
  ∀ b fuel cells mb m,
  chain cells b MEDIUM_PAGE_CELL_COUNT l → 0 ≤ mb < b →
  (length l ≤ fuel)%nat → load cells mb = Done m →
  ∃ cells',
    coalesce fuel cells b mb =
      Done (cells', (max_free (headers b (coalesced l)) (mb, size_ m)).1) ∧
    chain cells' b MEDIUM_PAGE_CELL_COUNT (coalesced l) ∧
    (∀ k, k < b → cells' !! k = cells !! k) ∧
    sizes_of_free_changed cells cells' ∧
    (separated l → cells' = cells).
Proof.
  induction N as [|N IH]; intros l HN b fuel cells mb m H Hmb Hf Hm.
  - destruct l; simpl in HN; [|lia]. simpl in H. subst. exists cells.
    split_and!; try done; [|apply sizes_of_free_changed_refl].
    destruct fuel; simpl; by rewrite bool_decide_eq_true_2.
  - destruct l as [|c l].
    { simpl in H. subst. exists cells.
      split_and!; try done; [|apply sizes_of_free_changed_refl].
      destruct fuel; simpl; by rewrite bool_decide_eq_true_2. }
    destruct fuel as [|fuel]; simpl in Hf, HN; [lia|].
    pose proof (chain_length _ _ _ _ H) as Hlen. simpl in Hlen.
    pose proof H as (Hl & Hs & H').
    rewrite coalesce_S, bool_decide_eq_false_2 by lia. rewrite Hl. cbn [obind].
    destruct (isAllocated_ c) eqn:Ha.
    + destruct (IH l ltac:(lia) (Next b c) fuel cells mb m)
        as (cells' & E & Hch & Hfr & Hrel & Hid); [done|unfold Next; lia|lia|done|].
      exists cells'. cbn [coalesced]. rewrite merge_alloc by done.
      cbn [headers max_free chain]. unfold free_larger. rewrite Ha. cbn [negb andb].
      split_and!; try done.
      * rewrite <- Hl. apply load_ext, Hfr. unfold Next. lia.
      * intros k ?. apply Hfr. unfold Next. lia.
      * intros Hsep. apply Hid. by eapply separated_tail.
    + destruct (absorb_spec b l c (S fuel) cells)
        as (cells1 & E1 & Hch1 & Hfr1 & Hrel1 & Hid1); [done|lia|done|lia|].
      rewrite E1. cbn [obind]. rewrite coalesced_absorb by done.
      pose proof (absorb_list_length c l) as Hlr.
      pose proof (absorb_list_flag c l) as Hfl. rewrite Ha in Hfl.
      destruct (absorb_list c l) as [c' r] eqn:Eabs. cbn [fst snd] in *.
      destruct Hch1 as (Hl1 & Hs1 & Hch1).
      assert (load cells1 mb = Done m) as Hm1.
      { rewrite <- Hm. apply load_ext, Hfr1. lia. }
      rewrite Hl1, Hm1. cbn [obind headers max_free chain].
      unfold free_larger. rewrite Hfl. cbn [negb andb snd].
      destruct (size_ m <? size_ c') eqn:Hlt.
      * destruct (IH r ltac:(lia) (Next b c') fuel cells1 b c')
          as (cells' & E & Hch & Hfr & Hrel & Hid);
          [done|unfold Next; lia|lia|done|].
        exists cells'. rewrite E.
        split_and!; try done.
        -- rewrite <- Hl1. apply load_ext, Hfr. unfold Next. lia.
        -- intros k ?. rewrite Hfr by (unfold Next; lia). apply Hfr1. lia.
        -- by eapply sizes_of_free_changed_trans.
        -- intros Hsep. pose proof (separated_free_stops _ _ Hsep Ha) as Hst.
           rewrite (absorb_list_stops _ _ Hst) in Eabs. simplify_eq.
           rewrite Hid by (by eapply separated_tail). by apply Hid1.
      * destruct (IH r ltac:(lia) (Next b c') fuel cells1 mb m)
          as (cells' & E & Hch & Hfr & Hrel & Hid);
          [done|unfold Next; lia|lia|done|].
        exists cells'. rewrite E.
        split_and!; try done.
        -- rewrite <- Hl1. apply load_ext, Hfr. unfold Next. lia.
        -- intros k ?. rewrite Hfr by (unfold Next; lia). apply Hfr1. lia.
        -- by eapply sizes_of_free_changed_trans.
        -- intros Hsep. pose proof (separated_free_stops _ _ Hsep Ha) as Hst.
           rewrite (absorb_list_stops _ _ Hst) in Eabs. simplify_eq.
           rewrite Hid by (by eapply separated_tail). by apply Hid1.
Qed.

(** ** Sweep, UpdateCurBlock and TryAllocate on a well-formed page *)

Lemma max_free_cursor b l :
  (max_free (headers b l) (0, 0)).1 = 0 ∨
  ∃ c, ((max_free (headers b l) (0, 0)).1, c) ∈ headers b l ∧ isAllocated_ c = false.
Proof.
  destruct (max_free_spec (headers b l) (0, 0)) as [[-> _]|(L1 & c & L2 & E & ? & _)].
  - by left.
  - right. exists c. split; [|done]. rewrite E at 2.
    apply elem_of_app. right. apply elem_of_cons. by left.
Qed.

Lemma headers_in_starts b l k c : (k, c) ∈ headers b l → k ∈ starts b l.
Proof.
  intros Hin. rewrite <- headers_starts. apply list_elem_of_fmap. by exists (k, c).
Qed.

(** [Sweep] returns; its result in terms of the chain [l] it ran on. *)
Lemma Sweep_spec fuel p l marks :
  page_ok p l → (Z.to_nat MEDIUM_PAGE_CELL_COUNT ≤ fuel)%nat →
  ∃ cells1 cells2,
    Sweep fuel p marks =
      Done (existsb (live marks) (headers 1 l),
            {| curBlock_ := (max_free (headers 1 (coalesced (reclaimed marks 1 l))) (0, 0)).1;
               cells_ := cells2 |},
            marks ∖ queried 1 l) ∧
    page_ok {| curBlock_ := (max_free (headers 1 (coalesced (reclaimed marks 1 l))) (0, 0)).1;
               cells_ := cells2 |}
            (coalesced (reclaimed marks 1 l)) ∧
    chain cells1 1 MEDIUM_PAGE_CELL_COUNT (reclaimed marks 1 l) ∧
    (Forall (λ c, isAllocated_ c = false) l → cells1 = cells_ p) ∧
    sizes_of_free_changed cells1 cells2 ∧
    (separated (reclaimed marks 1 l) → cells2 = cells1).
Proof.
  intros [(c0 & Hl0 & Hz) Hch _] Hf.
  destruct (reclaim_spec l 1 fuel (cells_ p) marks false)
    as (cells1 & E1 & Hch1 & Hfr1 & Hid1); [done|lia|by eapply chain_fuel|].
  assert (load cells1 0 = Done c0) as Hl1.
  { rewrite <- Hl0. apply load_ext, Hfr1. lia. }
  destruct (coalesce_spec (length (reclaimed marks 1 l)) _ ltac:(done)
              1 fuel cells1 0 c0)
    as (cells2 & E2 & Hch2 & Hfr2 & Hrel & Hid2);
    [done|lia|by eapply chain_fuel|done|].
  rewrite Hz in E2.
  exists cells1, cells2. unfold Sweep. rewrite E1. cbn [obind].
  rewrite E2. cbn [obind orb]. split_and!; try done.
  split; cbn [curBlock_ cells_]; [|done|].
  - exists c0. split; [|done]. rewrite <- Hl1. apply load_ext, Hfr2. lia.
  - destruct (max_free_cursor 1 (coalesced (reclaimed marks 1 l)))
      as [?|(c & Hin & _)]; [by left|right]. by eapply headers_in_starts.
Qed.

(** [UpdateCurBlock] on a well-formed page. *)
Lemma UpdateCurBlock_ok fuel p l n :
  page_ok p l → (Z.to_nat MEDIUM_PAGE_CELL_COUNT ≤ fuel)%nat →
  ∃ p', UpdateCurBlock fuel p n = Done p' ∧ cells_ p' = cells_ p ∧ page_ok p' l ∧
        (curBlock_ p' = 0 ∨
         ∃ c, (curBlock_ p', c) ∈ headers 1 l ∧ isAllocated_ c = false).
Proof.
  intros Hok Hf. eexists. split; [by eapply UpdateCurBlock_scan|].
  cbn [curBlock_ cells_]. split; [done|].
  assert ((scan_list n (scan_order p l) (0, 0)).2.1 = 0 ∨
          ∃ c, ((scan_list n (scan_order p l) (0, 0)).2.1, c) ∈ headers 1 l ∧
               isAllocated_ c = false) as Hcur.
  { destruct (scan_list_free n (scan_order p l) (0, 0)) as [->|(c & Hin & ? & _)];
      [by left|right].
    exists c. split; [|done]. by eapply scan_order_headers. }
  split; [|done]. destruct Hok as [? ? _]. split; cbn [curBlock_ cells_]; try done.
  destruct Hcur as [?|(c & Hin & _)]; [by left|right]. by eapply headers_in_starts.
Qed.

(** [TryAllocate] on a well-formed page returns and keeps it well formed. *)
Lemma TryAllocate_ok fuel p l blockSize :
  page_ok p l → (Z.to_nat MEDIUM_PAGE_CELL_COUNT ≤ fuel)%nat →
  ∃ r p' l', TryAllocate fuel p blockSize = Done (r, p') ∧ page_ok p' l'.
Proof.
  intros Hok Hf. unfold TryAllocate.
  destruct (Cell_TryAllocate_ok p l (u32 (blockSize + 1)) Hok (u32_range _))
    as (r & cells1 & l1 & E1 & Hok1).
  rewrite E1. cbn [obind]. destruct r as [a|].
  - by exists (Some a), {| curBlock_ := curBlock_ p; cells_ := cells1 |}, l1.
  - destruct (UpdateCurBlock_ok fuel _ l1 (u32 (blockSize + 1)) Hok1 Hf)
      as (p2 & E2 & _ & Hok2 & _).
    rewrite E2. cbn [obind].
    destruct (Cell_TryAllocate_ok p2 l1 (u32 (blockSize + 1)) Hok2 (u32_range _))
      as (r & cells3 & l3 & E3 & Hok3).
    rewrite E3. cbn [obind]. by eexists _, _, l3.
Qed.

(** [Create] on a valid cell count. *)
Lemma Create_ok cellCount :
  cellCount < MEDIUM_PAGE_CELL_COUNT →
  Create cellCount =
    Done {| curBlock_ := 0;
            cells_ := <[1 := Cell_new (MEDIUM_PAGE_CELL_COUNT - 1)]> (<[0 := Cell_new 0]> ∅) |} ∧
  page_ok {| curBlock_ := 0;
             cells_ := <[1 := Cell_new (MEDIUM_PAGE_CELL_COUNT - 1)]> (<[0 := Cell_new 0]> ∅) |}
          [ {| isAllocated_ := false; size_ := MEDIUM_PAGE_CELL_COUNT - 1 |} ].
Proof.
  intros Hc. unfold Create. rewrite bool_decide_eq_true_2 by done.
  rewrite store_Done by lia. cbn [obind].
  rewrite store_Done by lia. cbn [obind]. split; [done|].
  split; cbn [curBlock_ cells_].
  - exists (Cell_new 0). split; [|done].
    rewrite load_insert_ne by lia. apply load_insert_eq. lia.
  - cbn [chain]. unfold Next. cbn [size_]. split_and!; [|lia|lia].
    rewrite load_insert_eq by lia. unfold Cell_new.
    by rewrite u32_small by lia.
  - by left.
Qed.

(** Every sequence of operations on a well-formed page runs to its end and
    leaves a well-formed page. *)
Lemma run_ok fuel ops : ∀ p marks l,
  page_ok p l → (Z.to_nat MEDIUM_PAGE_CELL_COUNT ≤ fuel)%nat →
  ∃ p' marks' l', run fuel ops (p, marks) = Done (p', marks') ∧ page_ok p' l'.
Proof.
  induction ops as [|o ops IH]; intros p marks l Hok Hf.
  - by exists p, marks, l.
  - cbn [run]. destruct o as [blockSize| |payload]; cbn [step fst snd].
    + destruct (TryAllocate_ok fuel p l blockSize Hok Hf) as (r & p1 & l1 & E & Hok1).
      rewrite E. cbn [obind]. by eapply IH.
    + destruct (Sweep_spec fuel p l marks Hok Hf) as (c1 & c2 & E & Hok1 & _).
      rewrite E. cbn [obind]. by eapply IH.
    + cbn [obind]. by eapply IH.
Qed.

(** The invariant [page_ok], under which the claims below are stated, holds
    in every state reached from a fresh page. *)
Lemma reachable_page_ok (cellCount : Z) (ops : list op) (marks : gset Z) (fuel : nat) :
  cellCount < MEDIUM_PAGE_CELL_COUNT →
  (Z.to_nat MEDIUM_PAGE_CELL_COUNT ≤ fuel)%nat →
  ∃ p0 p marks' l,
    Create cellCount = Done p0 ∧
    run fuel ops (p0, marks) = Done (p, marks') ∧
    page_ok p l.
Proof.
  intros Hc Hf. destruct (Create_ok _ Hc) as [E0 Hok0].
  destruct (run_ok fuel ops _ marks _ Hok0 Hf) as (p & marks' & l & E & Hok).
  by eexists _, p, marks', l.
Qed.

(** ** What the sweep does to each cell *)

Lemma sweep_cell_flag marks h : isAllocated_ (sweep_cell marks h) = live marks h.
Proof.
  unfold sweep_cell, live. destruct (isAllocated_ h.2) eqn:Ha; simpl; [|done].
  destruct (bool_decide (data_ h.1 ∈ marks)); simpl; done.
Qed.

Lemma sweep_cell_live marks h : live marks h = true → sweep_cell marks h = h.2.
Proof.
  unfold sweep_cell, live. intros [-> ->]%andb_true_iff. done.
Qed.

Lemma sweep_cell_free marks h : isAllocated_ h.2 = false → sweep_cell marks h = h.2.
Proof. unfold sweep_cell. by intros ->. Qed.

Lemma reclaimed_free marks b l :
  Forall (λ c, isAllocated_ c = false) l → reclaimed marks b l = l.
Proof.
  unfold reclaimed. intros HF. revert b.
  induction HF as [|c l Hc HF IH]; intros b; csimpl; [done|].
  rewrite IH. by rewrite sweep_cell_free.
Qed.

Lemma elem_of_headers_reclaimed marks b0 l b c :
  (b, c) ∈ headers b0 l → (b, sweep_cell marks (b, c)) ∈ headers b0 (reclaimed marks b0 l).
Proof.
  intros Hin. rewrite headers_reclaimed. apply list_elem_of_fmap. by exists (b, c).
Qed.

Lemma elem_of_headers_reclaimed_inv marks b0 l b c' :
  (b, c') ∈ headers b0 (reclaimed marks b0 l) →
  ∃ c, (b, c) ∈ headers b0 l ∧ c' = sweep_cell marks (b, c).
Proof.
  rewrite headers_reclaimed. intros ([b1 c] & E & Hin)%list_elem_of_fmap.
  simpl in E. simplify_eq. by exists c.
Qed.

Lemma existsb_reclaimed marks b l :
  existsb isAllocated_ (reclaimed marks b l) = existsb (live marks) (headers b l).
Proof.
  unfold reclaimed. revert b. induction l as [|c l IH]; intros b; csimpl; [done|].
  by rewrite IH, sweep_cell_flag.
Qed.

Lemma elem_of_queried l : ∀ b0 x,
  x ∈ queried b0 l ↔ ∃ b c, (b, c) ∈ headers b0 l ∧ isAllocated_ c = true ∧ x = data_ b.
Proof.
  induction l as [|c0 l IH]; intros b0 x; cbn [queried headers].
  - split; [set_solver|]. intros (b & c & Hin & _). by apply elem_of_nil in Hin.
  - rewrite elem_of_union, IH. split.
    + intros [Hx|(b & c & Hin & Ha & ->)].
      * destruct (isAllocated_ c0) eqn:Ha; [|set_solver].
        apply elem_of_singleton in Hx. subst. exists b0, c0.
        split_and!; try done. apply elem_of_cons. by left.
      * exists b, c. split_and!; try done. apply elem_of_cons. by right.
    + intros (b & c & Hin & Ha & ->). apply elem_of_cons in Hin as [Hin|Hin].
      * left. simplify_eq. rewrite Ha. by apply elem_of_singleton.
      * right. by exists b, c.
Qed.

Lemma existsb_false {A} (f : A → bool) (L : list A) :
  (∀ x, x ∈ L → f x = false) → existsb f L = false.
Proof.
  induction L as [|a L IH]; intros H; [done|]. simpl.
  rewrite H by (apply elem_of_cons; by left). simpl.
  apply IH. intros x ?. apply H. apply elem_of_cons. by right.
Qed.

Lemma existsb_true {A} (f : A → bool) (L : list A) :
  existsb f L = true ↔ ∃ x, x ∈ L ∧ f x = true.
Proof.
  rewrite existsb_exists. split; intros (x & ? & ?); exists x;
    (split; [by apply list_elem_of_In|done]).
Qed.

(** An allocated cell stays where it is when the list is coalesced. *)
Lemma alloc_kept l : ∀ b0 b c,
  (b, c) ∈ headers b0 l → isAllocated_ c = true → (b, c) ∈ headers b0 (coalesced l).
Proof.
  induction l as [|c0 l IH]; intros b0 b c Hin Ha; [done|].
  cbn [coalesced headers] in *. apply elem_of_cons in Hin as [Hin|Hin].
  - simplify_eq. rewrite merge_alloc by done. apply elem_of_cons. by left.
  - apply IH in Hin; [|done]. destruct (coalesced l) as [|d r];
      [simpl in Hin; by apply elem_of_nil in Hin|]. simpl.
    destruct (negb (isAllocated_ c0) && negb (isAllocated_ d)) eqn:Hm; simpl.
    + apply andb_true_iff in Hm as [_ Hd]. apply negb_true_iff in Hd.
      simpl in Hin. apply elem_of_cons in Hin as [Hin|Hin]; [simplify_eq; congruence|].
      apply elem_of_cons. right. unfold Next in *. simpl. by rewrite Z.add_assoc.
    + apply elem_of_cons. by right.
Qed.

Lemma coalesced_pos l :
  Forall (λ c, 0 < size_ c) l → Forall (λ c, 0 < size_ c) (coalesced l).
Proof.
  induction 1 as [|c l Hc Hp IH]; [done|]. cbn [coalesced].
  destruct (coalesced l) as [|d r]; simpl; [by constructor|].
  inversion IH; subst.
  destruct (negb (isAllocated_ c) && negb (isAllocated_ d));
    constructor; simpl; try done; lia.
Qed.

(** A free cell lies, after coalescing, within a free cell. *)
Lemma free_covered l : Forall (λ c, 0 < size_ c) l → ∀ b0 b c,
  (b, c) ∈ headers b0 l → isAllocated_ c = false →
  ∃ k d, (k, d) ∈ headers b0 (coalesced l) ∧ isAllocated_ d = false ∧
         k ≤ b ∧ b + size_ c ≤ k + size_ d.
Proof.
  induction 1 as [|c0 l Hc0 Hp IH]; intros b0 b c Hin Ha;
    [simpl in Hin; by apply elem_of_nil in Hin|].
  pose proof (coalesced_pos _ Hp) as Hpc.
  cbn [coalesced headers] in *. apply elem_of_cons in Hin as [Hin|Hin].
  - simplify_eq. destruct (coalesced l) as [|d r]; simpl.
    + exists b0, c0. split_and!; [apply elem_of_cons; by left|done|lia|lia].
    + inversion Hpc; subst. rewrite Ha. simpl.
      destruct (isAllocated_ d) eqn:Hd; simpl.
      * exists b0, c0. split_and!; [apply elem_of_cons; by left|done|lia|lia].
      * eexists b0, _. split_and!; [apply elem_of_cons; by left|done|lia|simpl; lia].
  - destruct (IH _ _ _ Hin Ha) as (k & d & Hkd & Hd & Hle1 & Hle2).
    destruct (coalesced l) as [|d0 r];
      [simpl in Hkd; by apply elem_of_nil in Hkd|]. simpl.
    destruct (negb (isAllocated_ c0) && negb (isAllocated_ d0)) eqn:Hm; simpl.
    + simpl in Hkd. unfold Next in *. apply elem_of_cons in Hkd as [Hkd|Hkd].
      * simplify_eq. eexists b0, _.
        split_and!; [apply elem_of_cons; by left|done|lia|simpl; lia].
      * exists k, d. split_and!; try done. apply elem_of_cons. right.
        simpl. by rewrite Z.add_assoc.
    + exists k, d. split_and!; try done. apply elem_of_cons. by right.
Qed.

Lemma merge_app c X Y : X ≠ [] → merge c (X ++ Y) = merge c X ++ Y.
Proof.
  destruct X as [|d X]; [done|]. intros _. simpl.
  by destruct (negb (isAllocated_ c) && negb (isAllocated_ d)).
Qed.

Lemma merge_not_nil c r : merge c r ≠ [].
Proof.
  destruct r as [|d r]; simpl; [done|].
  by destruct (negb (isAllocated_ c) && negb (isAllocated_ d)).
Qed.

Lemma coalesced_run_head run post :
  run ≠ [] → Forall (λ c, isAllocated_ c = false) run → stops post →
  coalesced (run ++ post) =
    {| isAllocated_ := false; size_ := total run |} :: coalesced post.
Proof.
  intros Hne HF Hst. induction HF as [|x run Hx HF IH]; [done|].
  destruct run as [|y run].
  - simpl. rewrite merge_stops by (by apply coalesced_stops).
    f_equal. destruct x; simpl in *; subst. by rewrite Z.add_0_r.
  - cbn [app coalesced] in *. rewrite IH by done. simpl. by rewrite Hx.
Qed.

(** A maximal run of free cells is one free cell after coalescing. *)
Lemma coalesced_run pre run post :
  run ≠ [] → Forall (λ c, isAllocated_ c = false) run →
  ends_allocated pre → stops post →
  coalesced (pre ++ run ++ post) =
    coalesced pre ++ {| isAllocated_ := false; size_ := total run |} :: coalesced post.
Proof.
  intros Hne HF Hpre Hst. induction pre as [|a pre IH].
  - by apply (coalesced_run_head run post).
  - destruct pre as [|a' pre].
    + unfold ends_allocated in Hpre. simpl in Hpre.
      cbn [app coalesced]. rewrite coalesced_run_head by done.
      by rewrite merge_alloc.
    + cbn [app coalesced] in *. rewrite IH by done.
      apply merge_app, merge_not_nil.
Qed.

Lemma coalesced_run_at pre run post b0 :
  run ≠ [] → Forall (λ c, isAllocated_ c = false) run →
  ends_allocated pre → stops post →
  (b0 + total pre, {| isAllocated_ := false; size_ := total run |})
    ∈ headers b0 (coalesced (pre ++ run ++ post)).
Proof.
  intros. rewrite coalesced_run by done. rewrite headers_app, total_coalesced.
  apply elem_of_app. right. apply elem_of_cons. by left.
Qed.

(** ** The cursor after a search or a sweep, in any state *)

Lemma scan_unit0_or_free fuel cells n stop : ∀ b mb found mb',
  scan fuel cells n stop b mb = Done (found, mb') →
  unit0_or_free cells mb → unit0_or_free cells mb'.
Proof.
  induction fuel as [|fuel IH]; intros b mb found mb' H Hmb; simpl in H;
    case_bool_decide; simplify_eq; try done.
  destruct (load cells b) as [c| | |] eqn:Hl; cbn [obind] in H; try done.
  destruct (isAllocated_ c) eqn:Ha; cbn [obind] in H; [by eapply IH|].
  destruct (load cells mb) as [m| | |]; cbn [obind] in H; try done.
  destruct (size_ m <? size_ c); [|by eapply IH].
  assert (unit0_or_free cells b) by (right; by exists c).
  destruct (n <=? size_ c); [by simplify_eq|by eapply IH].
Qed.

Lemma UpdateCurBlock_unit0_or_free fuel p n p' :
  UpdateCurBlock fuel p n = Done p' → unit0_or_free (cells_ p') (curBlock_ p').
Proof.
  unfold UpdateCurBlock. intros H.
  destruct (scan fuel (cells_ p) n MEDIUM_PAGE_CELL_COUNT _ 0)
    as [[f mb]| | |] eqn:E1; cbn [obind] in H; try done.
  apply scan_unit0_or_free in E1; [|by left].
  destruct f; [by simplify_eq|].
  destruct (scan fuel (cells_ p) n _ 1 mb) as [[f' mb']| | |] eqn:E2;
    cbn [obind] in H; try done.
  apply scan_unit0_or_free in E2; [|done]. by simplify_eq.
Qed.

Lemma absorb_flags fuel : ∀ cells b cells',
  absorb fuel cells b = Done cells' →
  ∀ k c, load cells k = Done c →
         ∃ c', load cells' k = Done c' ∧ isAllocated_ c' = isAllocated_ c.
Proof.
  induction fuel as [|fuel IH]; intros cells b cells' H k c Hk;
    rewrite absorb_unfold in H;
    destruct (load cells b) as [cb| | |] eqn:Hb; cbn [obind] in H; try done;
    case_bool_decide; simplify_eq; eauto;
    destruct (load cells (Next b cb)) as [nb| | |]; cbn [obind] in H; try done;
    destruct (isAllocated_ nb); simplify_eq; eauto.
  unfold store in H. case_bool_decide; cbn [obind] in H; [|done].
  destruct (decide (k = b)) as [->|Hne].
  - simplify_eq. eapply IH in H as (c' & ? & Hfl); [|by apply load_insert_eq].
    exists c'. split; [done|]. simpl in Hfl. congruence.
  - eapply IH; [done|]. by rewrite load_insert_ne.
Qed.

Lemma coalesce_unit0_or_free fuel : ∀ cells b mb cells' mb',
  coalesce fuel cells b mb = Done (cells', mb') →
  unit0_or_free cells mb → unit0_or_free cells' mb'.
Proof.
  induction fuel as [|fuel IH]; intros cells b mb cells' mb' H Hmb.
  { simpl in H. case_bool_decide; by simplify_eq. }
  rewrite coalesce_S in H. case_bool_decide; [by simplify_eq|].
  destruct (load cells b) as [c| | |] eqn:Hb; cbn [obind] in H; try done.
  destruct (isAllocated_ c) eqn:Ha; [by eapply IH|].
  destruct (absorb (S fuel) cells b) as [cells1| | |] eqn:E1; cbn [obind] in H; try done.
  destruct (load cells1 b) as [c1| | |] eqn:Hb1; cbn [obind] in H; try done.
  destruct (load cells1 mb) as [m| | |] eqn:Hm1; cbn [obind] in H; try done.
  eapply IH; [exact H|].
  destruct (size_ m <? size_ c1).
  - right. destruct (absorb_flags _ _ _ _ E1 _ _ Hb) as (c' & ? & ?).
    exists c1. split; [done|]. congruence.
  - destruct Hmb as [?|(c0 & Hl0 & Ha0)]; [by left|right].
    destruct (absorb_flags _ _ _ _ E1 _ _ Hl0) as (c' & ? & ?).
    exists c'. split; [done|]. congruence.
Qed.

Lemma Sweep_unit0_or_free fuel p marks alive p' marks' :
  Sweep fuel p marks = Done (alive, p', marks') →
  unit0_or_free (cells_ p') (curBlock_ p').
Proof.
  unfold Sweep. intros H.
  destruct (reclaim fuel (cells_ p) marks false 1) as [[[cells1 m1] a1]| | |];
    cbn [obind] in H; try done.
  destruct (coalesce fuel cells1 1 0) as [[cells2 mb]| | |] eqn:E2;
    cbn [obind] in H; try done.
  simplify_eq. cbn [curBlock_ cells_].
  eapply coalesce_unit0_or_free; [exact E2|by left].
Qed.

(** ** The claims *)

(** C8: [Create(cellCount)] aborts if and only if [cellCount] is at least
    [MEDIUM_PAGE_CELL_COUNT]; for a smaller [cellCount] it returns a page
    whose unit 0 holds a free header of size 0 (the sentinel), whose chain is
    the single free cell of size [MEDIUM_PAGE_CELL_COUNT - 1] in unit 1, and
    whose cursor is on unit 0. *)
Theorem Create_aborts_iff (cellCount : Z) :
  (Create cellCount = Abort ↔ MEDIUM_PAGE_CELL_COUNT ≤ cellCount) ∧
  (cellCount < MEDIUM_PAGE_CELL_COUNT →
   ∃ p, Create cellCount = Done p ∧
        curBlock_ p = 0 ∧
        load (cells_ p) 0 = Done {| isAllocated_ := false; size_ := 0 |} ∧
        load (cells_ p) 1 =
          Done {| isAllocated_ := false; size_ := MEDIUM_PAGE_CELL_COUNT - 1 |} ∧
        chain (cells_ p) 1 MEDIUM_PAGE_CELL_COUNT
          [ {| isAllocated_ := false; size_ := MEDIUM_PAGE_CELL_COUNT - 1 |} ]).
Proof.
  split.
  - split.
    + intros E. destruct (decide (cellCount < MEDIUM_PAGE_CELL_COUNT)) as [Hlt|]; [|lia].
      destruct (Create_ok _ Hlt) as [E' _]. congruence.
    + intros Hge. unfold Create. by rewrite bool_decide_eq_false_2 by lia.
  - intros Hlt. destruct (Create_ok _ Hlt) as [E [Hs Hch _]].
    eexists. split; [exact E|]. cbn [curBlock_ cells_] in *.
    split_and!; [done| | |done].
    + rewrite load_insert_ne by lia. by rewrite load_insert_eq by lia.
    + rewrite load_insert_eq by lia. unfold Cell_new. by rewrite u32_small by lia.
Qed.

(** C9: for two cell counts below [MEDIUM_PAGE_CELL_COUNT], [Create] returns
    the same page: the argument only feeds the assertion, and the free cell
    of the fresh page has size [MEDIUM_PAGE_CELL_COUNT - 1] whatever it is. *)
Theorem Create_ignores_cellCount (c1 c2 : Z) :
  c1 < MEDIUM_PAGE_CELL_COUNT → c2 < MEDIUM_PAGE_CELL_COUNT →
  ∃ p, Create c1 = Done p ∧ Create c2 = Done p ∧
       curBlock_ p = 0 ∧
       load (cells_ p) 1 =
         Done {| isAllocated_ := false; size_ := MEDIUM_PAGE_CELL_COUNT - 1 |}.
Proof.
  intros H1 H2. destruct (Create_ok _ H1) as [E1 _], (Create_ok _ H2) as [E2 _].
  eexists. split_and!; [exact E1|exact E2|done|]. cbn [cells_].
  rewrite load_insert_eq by lia. unfold Cell_new. by rewrite u32_small by lia.
Qed.

(** C1: from a freshly created page, every sequence of [TryAllocate] and
    [Sweep] calls (with any marking by the collector in between) runs to its
    end, and in the resulting state [CheckInvariants()] returns true: the
    cursor is within the array and the cells from unit 1 on, each of positive
    size, follow one another up to exactly the end of the array. *)
Theorem CheckInvariants_always (cellCount : Z) (ops : list op) (marks : gset Z)
    (fuel : nat) :
  cellCount < MEDIUM_PAGE_CELL_COUNT →
  (Z.to_nat MEDIUM_PAGE_CELL_COUNT ≤ fuel)%nat →
  ∃ p0 p marks',
    Create cellCount = Done p0 ∧
    run fuel ops (p0, marks) = Done (p, marks') ∧
    CheckInvariants fuel p = Done true ∧
    0 ≤ curBlock_ p < MEDIUM_PAGE_CELL_COUNT ∧
    ∃ l, chain (cells_ p) 1 MEDIUM_PAGE_CELL_COUNT l.
Proof.
  intros Hc Hf. destruct (Create_ok _ Hc) as [E0 Hok0].
  destruct (run_ok fuel ops _ marks _ Hok0 Hf) as (p & marks' & l & E & Hok).
  eexists _, p, marks'.
  split; [exact E0|]. split; [exact E|]. split; [by eapply page_ok_check|]. split.
  - destruct Hok as [_ Hch [->|Hin]]; [lia|].
    pose proof (starts_ge _ _ _ (chain_pos _ _ _ _ Hch) Hin).
    pose proof (chain_total _ _ _ _ Hch). lia.
  - exists l. by destruct Hok.
Qed.

Lemma UpdateCurBlock_cells fuel p n p' :
  UpdateCurBlock fuel p n = Done p' → cells_ p' = cells_ p.
Proof.
  unfold UpdateCurBlock. intros H.
  destruct (scan fuel (cells_ p) n MEDIUM_PAGE_CELL_COUNT _ 0) as [[f mb]| | |];
    cbn [obind] in H; try done.
  destruct f; [by simplify_eq|].
  destruct (scan fuel (cells_ p) n _ 1 mb) as [[f' mb']| | |];
    cbn [obind] in H; try done.
  by simplify_eq.
Qed.

Lemma scan_order_pos p l :
  page_ok p l → Forall (λ h : Z * Cell, 0 < size_ h.2) (scan_order p l).
Proof.
  intros [_ Hch _]. apply Forall_forall. intros h Hin.
  apply scan_order_headers in Hin.
  pose proof (headers_pos 1 l (chain_pos _ _ _ _ Hch)) as Hp.
  rewrite Forall_forall in Hp. by apply Hp.
Qed.

(** C4 (as amended): a failed [TryAllocate] leaves the cell array as it was;
    what it may change is the cursor, which [UpdateCurBlock] has moved. *)
Theorem TryAllocate_failure_keeps_cells (fuel : nat) (p : MediumPage)
    (blockSize : Z) (p' : MediumPage) :
  TryAllocate fuel p blockSize = Done (None, p') → cells_ p' = cells_ p.
Proof.
  unfold TryAllocate. intros H.
  destruct (Cell_TryAllocate (cells_ p) (curBlock_ p) _) as [[r cells1]| | |] eqn:E1;
    cbn [obind] in H; try done.
  destruct r as [a|]; [by simplify_eq|].
  apply Cell_TryAllocate_fail in E1. subst cells1.
  destruct (UpdateCurBlock fuel _ _) as [p2| | |] eqn:E2; cbn [obind] in H; try done.
  apply UpdateCurBlock_cells in E2. cbn [cells_] in E2.
  destruct (Cell_TryAllocate (cells_ p2) (curBlock_ p2) _) as [[r cells3]| | |] eqn:E3;
    cbn [obind] in H; try done.
  simplify_eq. apply Cell_TryAllocate_fail in E3. cbn [cells_]. congruence.
Qed.

(** C5: in the order of the scan (from the cursor to the end of the page, then
    from unit 1 up to the cursor), the first free cell of size at least
    [cellsNeeded] becomes the cursor: [UpdateCurBlock] returns with [curBlock_]
    on it, whatever follows it in the scan, and no fitting cell before it is
    passed over. *)
Theorem UpdateCurBlock_first_fit (fuel : nat) (p : MediumPage) (l : list Cell)
    (cellsNeeded : Z) (L1 : list (Z * Cell)) (b : Z) (c : Cell) (L2 : list (Z * Cell)) :
  page_ok p l → (Z.to_nat MEDIUM_PAGE_CELL_COUNT ≤ fuel)%nat →
  scan_order p l = L1 ++ (b, c) :: L2 →
  Forall (λ h, fits cellsNeeded h.2 = false) L1 →
  fits cellsNeeded c = true →
  UpdateCurBlock fuel p cellsNeeded =
    Done {| curBlock_ := b; cells_ := cells_ p |}.
Proof.
  intros Hok Hf HL H1 Hc.
  rewrite (UpdateCurBlock_scan fuel p l cellsNeeded Hok Hf), HL.
  rewrite (scan_list_hit cellsNeeded L1 b c L2 (0, 0) H1 Hc); [done| |by right].
  rewrite <- HL. by apply scan_order_pos.
Qed.


(** C10: whenever [UpdateCurBlock] or [Sweep] returns, in any state of the
    page, the cursor is on unit 0 or on a unit whose header has the allocated
    flag false; on a well-formed page both do return, and unit 0 then holds
    the sentinel of size 0. *)
Theorem cursor_free_after (fuel : nat) (p : MediumPage) :
  (∀ cellsNeeded p',
     UpdateCurBlock fuel p cellsNeeded = Done p' →
     unit0_or_free (cells_ p') (curBlock_ p')) ∧
  (∀ marks alive p' marks',
     Sweep fuel p marks = Done (alive, p', marks') →
     unit0_or_free (cells_ p') (curBlock_ p')) ∧
  (∀ l, page_ok p l → (Z.to_nat MEDIUM_PAGE_CELL_COUNT ≤ fuel)%nat →
     (∀ cellsNeeded, ∃ p',
        UpdateCurBlock fuel p cellsNeeded = Done p' ∧ cursor_free p') ∧
     (∀ marks, ∃ alive p' marks',
        Sweep fuel p marks = Done (alive, p', marks') ∧ cursor_free p')).
Proof.
  split; [intros n p'; apply UpdateCurBlock_unit0_or_free|].
  split; [intros marks alive p' marks'; apply Sweep_unit0_or_free|].
  intros l Hok Hf. split.
  - intros n. destruct (UpdateCurBlock_ok fuel p l n Hok Hf)
      as (p' & E & _ & [Hs Hch _] & Hcur).
    exists p'. split; [done|].
    destruct Hcur as [?|(c & Hin & Ha)]; [by left|right].
    exists c. split; [|done]. by eapply chain_headers.
  - intros marks. destruct (Sweep_spec fuel p l marks Hok Hf)
      as (c1 & c2 & E & [Hs Hch _] & _).
    eexists _, _, _. split; [exact E|]. cbn [curBlock_ cells_] in *.
    destruct (max_free_cursor 1 (coalesced (reclaimed marks 1 l)))
      as [E0|(c & Hin & Ha)]; [left|right]; cbn [curBlock_ cells_].
    + by rewrite E0.
    + exists c. split; [|done]. by eapply chain_headers.
Qed.

(** An allocated cell of the swept list was allocated, with a marked payload,
    before the sweep. *)
Lemma swept_alloc marks b0 l k d :
  (k, d) ∈ headers b0 (coalesced (reclaimed marks b0 l)) → isAllocated_ d = true →
  (k, d) ∈ headers b0 l ∧ isAllocated_ d = true ∧ data_ k ∈ marks.
Proof.
  intros Hin Ha. apply headers_coalesced_alloc in Hin; [|done].
  apply elem_of_headers_reclaimed_inv in Hin as (c & Hin & ->).
  rewrite sweep_cell_flag in Ha. rewrite (sweep_cell_live _ _ Ha).
  unfold live in Ha. apply andb_true_iff in Ha as [Ha Hm].
  apply bool_decide_eq_true in Hm. done.
Qed.

Lemma elem_of_cells_headers b0 l d : d ∈ l → ∃ k, (k, d) ∈ headers b0 l.
Proof.
  rewrite <- (headers_cells b0 l) at 1.
  intros ([k d'] & -> & Hin)%list_elem_of_fmap. by exists k.
Qed.

Lemma elem_of_headers_cells b0 l k d : (k, d) ∈ headers b0 l → d ∈ l.
Proof.
  intros Hin. rewrite <- (headers_cells b0 l). apply list_elem_of_fmap. by exists (k, d).
Qed.

(** C2: after [Sweep] the allocated cells with a marked payload are cells of
    the page as before, still allocated, and their mark is cleared; the
    allocated cells with an unmarked payload, like the cells that were free,
    lie within free cells; no other cell is allocated; and [Sweep] returns
    true exactly when an allocated cell is left. *)
Theorem Sweep_reclaims (fuel : nat) (p : MediumPage) (l : list Cell) (marks : gset Z) :
  page_ok p l → (Z.to_nat MEDIUM_PAGE_CELL_COUNT ≤ fuel)%nat →
  ∃ alive p' marks' l',
    Sweep fuel p marks = Done (alive, p', marks') ∧ page_ok p' l' ∧
    (∀ b c, (b, c) ∈ headers 1 l → isAllocated_ c = true → data_ b ∈ marks →
       (b, c) ∈ headers 1 l' ∧ load (cells_ p') b = Done c ∧ data_ b ∉ marks') ∧
    (∀ b c, (b, c) ∈ headers 1 l → isAllocated_ c = true → data_ b ∉ marks →
       ∃ k d, (k, d) ∈ headers 1 l' ∧ isAllocated_ d = false ∧
              k ≤ b ∧ b + size_ c ≤ k + size_ d) ∧
    (∀ b c, (b, c) ∈ headers 1 l → isAllocated_ c = false →
       ∃ k d, (k, d) ∈ headers 1 l' ∧ isAllocated_ d = false ∧
              k ≤ b ∧ b + size_ c ≤ k + size_ d) ∧
    (∀ k d, (k, d) ∈ headers 1 l' → isAllocated_ d = true →
       (k, d) ∈ headers 1 l ∧ data_ k ∈ marks) ∧
    (alive = true ↔ ∃ d, d ∈ l' ∧ isAllocated_ d = true).
Proof.
  intros Hok Hf.
  destruct (Sweep_spec fuel p l marks Hok Hf) as (c1 & c2 & E & Hok' & Hch1 & _).
  eexists _, _, _, _. split; [exact E|]. split; [exact Hok'|].
  pose proof (chain_pos _ _ _ _ Hch1) as Hp1.
  assert (∀ b c, (b, c) ∈ headers 1 l → live marks (b, c) = false →
            ∃ k d, (k, d) ∈ headers 1 (coalesced (reclaimed marks 1 l)) ∧
                   isAllocated_ d = false ∧ k ≤ b ∧ b + size_ c ≤ k + size_ d) as Hfree.
  { intros b c Hin Hl.
    pose proof (elem_of_headers_reclaimed marks _ _ _ _ Hin) as Hin'.
    destruct (free_covered _ Hp1 _ _ _ Hin') as (k & d & ? & ? & ? & Hle).
    - by rewrite sweep_cell_flag.
    - rewrite sweep_cell_size in Hle. by exists k, d. }
  split_and!.
  - intros b c Hin Ha Hm.
    assert (live marks (b, c) = true) as Hl.
    { unfold live. cbn [fst snd]. rewrite Ha. by rewrite bool_decide_eq_true_2. }
    pose proof (elem_of_headers_reclaimed marks _ _ _ _ Hin) as Hin'.
    rewrite (sweep_cell_live _ _ Hl) in Hin'. cbn [snd] in Hin'.
    apply alloc_kept in Hin'; [|done].
    split_and!; [done|by eapply chain_headers, Hin'; apply Hok'|].
    intros [_ Hq]%elem_of_difference. apply Hq, elem_of_queried. by exists b, c.
  - intros b c Hin Ha Hm. apply Hfree; [done|].
    unfold live. cbn [fst snd]. rewrite Ha. by rewrite bool_decide_eq_false_2.
  - intros b c Hin Ha. apply Hfree; [done|].
    unfold live. cbn [fst snd]. by rewrite Ha.
  - intros k d Hin Ha. by destruct (swept_alloc _ _ _ _ _ Hin Ha) as (? & _ & ?).
  - rewrite <- existsb_reclaimed, <- existsb_coalesced. apply existsb_true.
Qed.

(** C7: the second pass of [Sweep] leaves no two neighbouring free cells: a
    run of free cells between allocated cells (or the ends of the chain) is
    one free cell that starts where the run started and has the sum of the
    sizes, [a + b] for a run of two cells of sizes [a] and [b]; and the cursor
    ends on the earliest largest free cell of the page, on the sentinel when
    no cell is free. *)
Theorem Sweep_coalesces (fuel : nat) (p : MediumPage) (l : list Cell) (marks : gset Z) :
  page_ok p l → (Z.to_nat MEDIUM_PAGE_CELL_COUNT ≤ fuel)%nat →
  ∃ alive p' marks',
    Sweep fuel p marks = Done (alive, p', marks') ∧
    page_ok p' (coalesced (reclaimed marks 1 l)) ∧
    separated (coalesced (reclaimed marks 1 l)) ∧
    (∀ pre x y post,
       reclaimed marks 1 l = pre ++ x :: y :: post →
       isAllocated_ x = false → isAllocated_ y = false →
       ends_allocated pre → stops post →
       load (cells_ p') (1 + total pre) =
         Done {| isAllocated_ := false; size_ := size_ x + size_ y |}) ∧
    (∀ pre run post,
       reclaimed marks 1 l = pre ++ run ++ post →
       run ≠ [] → Forall (λ c, isAllocated_ c = false) run →
       ends_allocated pre → stops post →
       load (cells_ p') (1 + total pre) =
         Done {| isAllocated_ := false; size_ := total run |}) ∧
    earliest_max (headers 1 (coalesced (reclaimed marks 1 l))) (curBlock_ p').
Proof.
  intros Hok Hf.
  destruct (Sweep_spec fuel p l marks Hok Hf) as (c1 & c2 & E & Hok' & Hch1 & _).
  eexists _, _, _. split; [exact E|]. split; [exact Hok'|].
  split; [apply separated_coalesced|].
  assert (∀ pre run post,
       reclaimed marks 1 l = pre ++ run ++ post →
       run ≠ [] → Forall (λ c, isAllocated_ c = false) run →
       ends_allocated pre → stops post →
       load c2 (1 + total pre) =
         Done {| isAllocated_ := false; size_ := total run |}) as Hrun.
  { intros pre run post El Hne HF Hpre Hpost.
    eapply chain_headers; [apply Hok'|]. rewrite El.
    by apply coalesced_run_at. }
  cbn [curBlock_ cells_]. split_and!; [|done|].
  - intros pre x y post El Hx Hy Hpre Hpost.
    rewrite (Hrun pre [x; y] post); try done.
    + simpl. by rewrite Z.add_0_r.
    + by repeat constructor.
  - apply max_free_earliest, headers_pos.
    destruct Hok' as [_ Hch _]. by eapply chain_pos.
Qed.

Lemma existsb_Forall_free l :
  existsb isAllocated_ l = false → Forall (λ c, isAllocated_ c = false) l.
Proof.
  induction l as [|c l IH]; simpl; [constructor|].
  intros [? ?]%orb_false_iff. constructor; auto.
Qed.

(** C3 (as amended): a second [Sweep], run on the page and the marks the first
    one left, always returns false, since the first call cleared the marks
    of the cells it kept; it leaves the page as the first call left it, and
    so returns the same boolean, exactly when the first call returned
    false. *)
Theorem Sweep_twice (fuel : nat) (p : MediumPage) (l : list Cell) (marks : gset Z) :
  page_ok p l → (Z.to_nat MEDIUM_PAGE_CELL_COUNT ≤ fuel)%nat →
  ∃ alive p1 marks1 p2,
    Sweep fuel p marks = Done (alive, p1, marks1) ∧
    Sweep fuel p1 marks1 = Done (false, p2, marks1) ∧
    (p2 = p1 ↔ alive = false).
Proof.
  intros Hok Hf.
  destruct (Sweep_spec fuel p l marks Hok Hf) as (c1 & c2 & E1 & Hok1 & _).
  set (l1 := coalesced (reclaimed marks 1 l)) in *.
  set (m1 := marks ∖ queried 1 l) in *.
  destruct (Sweep_spec fuel _ l1 m1 Hok1 Hf)
    as (c3 & c4 & E2 & Hok2 & Hch3 & Hid3 & Hrel & Hid4).
  cbn [cells_] in *.
  assert (∀ k d, (k, d) ∈ headers 1 l1 → live m1 (k, d) = false) as Hdead.
  { intros k d Hin. unfold live. cbn [fst snd].
    destruct (isAllocated_ d) eqn:Ha; [|done]. simpl.
    apply bool_decide_eq_false_2. intros [_ Hq]%elem_of_difference.
    destruct (swept_alloc _ _ _ _ _ Hin Ha) as (Hin' & _ & _).
    apply Hq, elem_of_queried. by exists k, d. }
  assert (existsb (live m1) (headers 1 l1) = false) as Ea.
  { apply existsb_false. intros [k d] Hin. by apply Hdead. }
  assert (m1 ∖ queried 1 l1 = m1) as Em.
  { apply set_eq. intros x. rewrite elem_of_difference. split; [by intros [? _]|].
    intros Hx. split; [done|]. intros (k & d & Hin & Ha & ->)%elem_of_queried.
    pose proof (Hdead _ _ Hin) as Hl. unfold live in Hl. cbn [fst snd] in Hl.
    rewrite Ha in Hl. simpl in Hl. by apply bool_decide_eq_false in Hl. }
  rewrite Ea, Em in E2.
  eexists _, _, _, _. split; [exact E1|]. split; [exact E2|].
  assert (existsb (live marks) (headers 1 l) = existsb isAllocated_ l1) as Ealive.
  { unfold l1. by rewrite existsb_coalesced, existsb_reclaimed. }
  rewrite Ealive. split.
  - intros Ep. destruct (existsb isAllocated_ l1) eqn:Ex; [exfalso|done].
    apply existsb_true in Ex as (d & Hd & Ha).
    destruct (elem_of_cells_headers 1 _ _ Hd) as (k & Hin).
    assert (c2 !! k = Some d) as Hk2.
    { destruct Hok1 as [_ Hch _]. cbn [cells_] in Hch.
      by apply (chain_headers _ _ _ _ _ _ Hch), load_Done in Hin as [_ ?]. }
    pose proof (elem_of_headers_reclaimed m1 _ _ _ _ Hin) as Hin3.
    apply (chain_headers _ _ _ _ _ _ Hch3), load_Done in Hin3 as [_ Hk3].
    pose proof (sweep_cell_flag m1 (k, d)) as Hfl. rewrite (Hdead _ _ Hin) in Hfl.
    assert (c4 !! k = Some d) as Hk4 by (by simplify_eq).
    destruct (Hrel k) as [Heq|(c & c' & _ & Hc' & _ & Hfc')]; congruence.
  - intros Ex. apply existsb_Forall_free in Ex as HF.
    assert (reclaimed m1 1 l1 = l1) as Er by (by apply reclaimed_free).
    rewrite Er in *.
    assert (coalesced l1 = l1) as Ec
      by (apply coalesced_separated, separated_coalesced).
    rewrite Ec. f_equal. rewrite Hid4 by apply separated_coalesced. by apply Hid3.
Qed.

(** * Further properties of the page *)

(** ** What an allocation does *)

Lemma Cell_TryAllocate_success cells b n c :
  load cells b = Done c → isAllocated_ c = false → 0 ≤ n ≤ size_ c →
  b + size_ c ≤ MEDIUM_PAGE_CELL_COUNT →
  Cell_TryAllocate cells b n = Done (Some (data_ b), carved cells b n c).
Proof.
  intros Hl Ha Hn Hb. pose proof (proj1 (load_Done _ _ _) Hl) as [Hr _].
  unfold Cell_TryAllocate, carved. rewrite Hl. cbn [obind]. rewrite Ha.
  rewrite (proj2 (Z.ltb_ge _ _)) by lia. cbn [orb].
  rewrite store_Done by lia. cbn [obind].
  destruct (Z.ltb_spec n (size_ c)); [|done].
  rewrite store_Done by lia. cbn [obind]. by rewrite store_Done by lia.
Qed.

Lemma Cell_TryAllocate_refuses cells b n c :
  load cells b = Done c → isAllocated_ c = true ∨ size_ c < n →
  Cell_TryAllocate cells b n = Done (None, cells).
Proof.
  intros Hl Hc. unfold Cell_TryAllocate. rewrite Hl. cbn [obind].
  destruct Hc as [->|Hc]; [done|].
  rewrite (proj2 (Z.ltb_lt _ _)) by lia. by rewrite orb_true_r.
Qed.

Lemma headers_split i l b c :
  (b, c) ∈ headers i l → ∃ l1 l2, l = l1 ++ c :: l2 ∧ b = i + total l1.
Proof.
  revert i. induction l as [|c0 l IH]; simpl; intros i H.
  - by apply elem_of_nil in H.
  - apply elem_of_cons in H as [H|H].
    + simplify_eq. exists [], l. simpl. split; [done|lia].
    + apply IH in H as (l1 & l2 & -> & ->).
      exists (c0 :: l1), l2. simpl. unfold Next. split; [done|lia].
Qed.

Lemma fits_false n c :
  fits n c = false → isAllocated_ c = true ∨ size_ c < n.
Proof.
  unfold fits. destruct (isAllocated_ c); [by left|]. simpl.
  intros ?%Z.leb_gt. by right.
Qed.

Lemma fits_true n c :
  fits n c = true → isAllocated_ c = false ∧ n ≤ size_ c.
Proof.
  unfold fits. intros [?%negb_true_iff ?%Z.leb_le]%andb_true_iff. done.
Qed.

(** The page after [n] units are carved out of the free cell [c] of its
    chain. *)
Lemma carve_page_ok p l1 c l2 n :
  page_ok p (l1 ++ c :: l2) → isAllocated_ c = false → 1 ≤ n ≤ size_ c →
  page_ok {| curBlock_ := 1 + total l1;
             cells_ := carved (cells_ p) (1 + total l1) n c |}
          (l1 ++ (used_cell n :: remainder n c) ++ l2).
Proof.
  intros [(c0 & Hl0 & Hz) Hch _] Ha Hn.
  pose proof Hch as Hch'. apply chain_app in Hch' as [Hc1 Hc2].
  simpl in Hc2. destruct Hc2 as (Hl & Hc & Hc2).
  pose proof (chain_length _ _ _ _ Hc1). pose proof (chain_length _ _ _ _ Hc2).
  unfold Next in *. set (b := 1 + total l1) in *.
  assert (∀ x, x < b ∨ b + size_ c ≤ x →
               carved (cells_ p) b n c !! x = cells_ p !! x) as Hfr.
  { intros x ?. unfold carved. destruct (Z.ltb_spec n (size_ c));
      rewrite !lookup_insert_ne by lia; done. }
  split; cbn [curBlock_ cells_].
  - exists c0. split; [|done]. rewrite <- Hl0. apply load_ext, Hfr. lia.
  - eapply chain_replace; [exact Hch|exact Hfr|]. fold b.
    unfold carved, remainder, used_cell, free_cell.
    destruct (Z.ltb_spec n (size_ c)); cbn [chain size_]; unfold Next; cbn [size_].
    + split_and!; [|lia| |lia|lia].
      * rewrite load_insert_ne by lia. apply load_insert_eq. lia.
      * rewrite load_insert_eq by lia. unfold Cell_new.
        by rewrite u32_small by lia.
    + replace n with (size_ c) by lia. split_and!; [|lia|done].
      apply load_insert_eq. lia.
  - right. apply starts_mid. done.
Qed.

Lemma total_carved n c : 1 ≤ n ≤ size_ c → total (used_cell n :: remainder n c) = size_ c.
Proof.
  intros. unfold remainder. destruct (Z.ltb_spec n (size_ c)); simpl; lia.
Qed.

(** The cell under the cursor: the sentinel, or the first cell of the scan. *)
Lemma cursor_cell p l :
  page_ok p l →
  (curBlock_ p = 0 ∧ ∃ c0, load (cells_ p) 0 = Done c0 ∧ size_ c0 = 0) ∨
  (∃ c L, scan_order p l = (curBlock_ p, c) :: L ∧
          load (cells_ p) (curBlock_ p) = Done c).
Proof.
  intros Hok. destruct (scan_order_split _ _ Hok) as (l1 & l2 & -> & Hne & Hs & ->).
  destruct Hok as [Hsent Hch Hcur]. destruct Hcur as [E0|Hin]; [by left|right].
  pose proof (starts_ge _ _ _ (chain_pos _ _ _ _ Hch) Hin).
  assert (scan_start p = curBlock_ p) as Es.
  { unfold scan_start. by rewrite bool_decide_eq_false_2 by lia. }
  rewrite Es in *. apply chain_app in Hch as [_ Hc2]. rewrite <- Hs in Hc2.
  destruct l2 as [|c l2]; [done|]. destruct Hc2 as (Hl & _).
  by exists c, (headers (Next (curBlock_ p) c) l2 ++ headers 1 l1).
Qed.

Lemma headers_end cells i j l b c :
  chain cells i j l → (b, c) ∈ headers i l → i ≤ b ∧ b + size_ c ≤ j.
Proof.
  intros Hch Hin. apply headers_split in Hin as (l1 & l2 & -> & ->).
  pose proof (chain_total _ _ _ _ Hch) as Ht.
  apply chain_pos, Forall_app in Hch as [H1 H2]. apply Forall_cons in H2 as [Hc H2].
  pose proof (total_length _ H1). pose proof (total_length _ H2).
  rewrite total_app in Ht. simpl in Ht. lia.
Qed.

(** [TryAllocate] serves a request from the first cell of the scan order
    that fits. *)
Lemma TryAllocate_first fuel p l blockSize L1 b c L2 :
  page_ok p l → (Z.to_nat MEDIUM_PAGE_CELL_COUNT ≤ fuel)%nat →
  1 ≤ u32 (blockSize + 1) →
  scan_order p l = L1 ++ (b, c) :: L2 →
  Forall (λ h, fits (u32 (blockSize + 1)) h.2 = false) L1 →
  fits (u32 (blockSize + 1)) c = true →
  TryAllocate fuel p blockSize =
    Done (Some (data_ b),
          {| curBlock_ := b; cells_ := carved (cells_ p) b (u32 (blockSize + 1)) c |}).
Proof.
  intros Hok Hf Hn HL H1 Hc. set (n := u32 (blockSize + 1)) in *.
  apply fits_true in Hc as Hc'. destruct Hc' as [Ha Hle].
  assert ((b, c) ∈ headers 1 l) as Hin.
  { eapply scan_order_headers. rewrite HL. apply elem_of_app. right.
    apply elem_of_cons. by left. }
  pose proof Hok as [_ Hch _].
  pose proof (chain_headers _ _ _ _ _ _ Hch Hin) as Hlb.
  pose proof (headers_end _ _ _ _ _ _ Hch Hin) as [_ Hend].
  assert (Cell_TryAllocate (cells_ p) b n = Done (Some (data_ b), carved (cells_ p) b n c))
    as Esucc by (apply Cell_TryAllocate_success; [done|done|lia|done]).
  assert (UpdateCurBlock fuel {| curBlock_ := curBlock_ p; cells_ := cells_ p |} n =
          Done {| curBlock_ := b; cells_ := cells_ p |}) as Eupd.
  { replace {| curBlock_ := curBlock_ p; cells_ := cells_ p |} with p by (by destruct p).
    rewrite (UpdateCurBlock_scan fuel p l n Hok Hf), HL.
    rewrite (scan_list_hit n L1 b c L2 (0, 0) H1 Hc); [done| |by right].
    rewrite <- HL. by apply scan_order_pos. }
  unfold TryAllocate. fold n.
  destruct (cursor_cell _ _ Hok) as [(E0 & c0 & Hl0 & Hz)|(ck & L & EL & Hlk)].
  - rewrite E0 at 1. rewrite (Cell_TryAllocate_refuses _ 0 n c0) by (done || (right; lia)).
    cbn [obind]. rewrite Eupd. cbn [obind curBlock_ cells_]. by rewrite Esucc.
  - destruct L1 as [|h L1].
    + simpl in HL. rewrite EL in HL. simplify_eq. by rewrite Esucc.
    + simpl in HL. rewrite EL in HL. simplify_eq.
      inversion H1 as [|?? Hh _]; subst. cbn [snd] in Hh. apply fits_false in Hh.
      rewrite (Cell_TryAllocate_refuses _ _ n ck) by done.
      cbn [obind]. rewrite Eupd. cbn [obind curBlock_ cells_]. by rewrite Esucc.
Qed.

(** [TryAllocate] fails when no cell of the scan order fits, and leaves the
    cursor on the cell [max_free] picks. *)
Lemma TryAllocate_none fuel p l blockSize :
  page_ok p l → (Z.to_nat MEDIUM_PAGE_CELL_COUNT ≤ fuel)%nat →
  1 ≤ u32 (blockSize + 1) →
  Forall (λ h, fits (u32 (blockSize + 1)) h.2 = false) (scan_order p l) →
  TryAllocate fuel p blockSize =
    Done (None, {| curBlock_ := (max_free (scan_order p l) (0, 0)).1;
                   cells_ := cells_ p |}).
Proof.
  intros Hok Hf Hn Hno. set (n := u32 (blockSize + 1)) in *.
  pose proof Hok as [(c0 & Hl0 & Hz) Hch _].
  assert (UpdateCurBlock fuel {| curBlock_ := curBlock_ p; cells_ := cells_ p |} n =
          Done {| curBlock_ := (max_free (scan_order p l) (0, 0)).1;
                  cells_ := cells_ p |}) as Eupd.
  { replace {| curBlock_ := curBlock_ p; cells_ := cells_ p |} with p by (by destruct p).
    rewrite (UpdateCurBlock_scan fuel p l n Hok Hf).
    by rewrite scan_list_nofit by done. }
  assert (Cell_TryAllocate (cells_ p) (max_free (scan_order p l) (0, 0)).1 n =
          Done (None, cells_ p)) as Eretry.
  { destruct (max_free_earliest _ (scan_order_pos _ _ Hok))
      as [[-> _]|(M1 & c & M2 & E & Ha & _)].
    - apply (Cell_TryAllocate_refuses _ 0 n c0); [done|right; lia].
    - assert ((((max_free (scan_order p l) (0, 0)).1), c) ∈ scan_order p l) as Hin.
      { rewrite E at 2. apply elem_of_app. right. apply elem_of_cons. by left. }
      rewrite Forall_forall in Hno. pose proof (Hno _ Hin) as Hfit.
      apply scan_order_headers in Hin.
      apply (Cell_TryAllocate_refuses _ _ n c);
        [by eapply chain_headers|by apply fits_false]. }
  unfold TryAllocate. fold n.
  assert (Cell_TryAllocate (cells_ p) (curBlock_ p) n = Done (None, cells_ p)) as Efirst.
  { destruct (cursor_cell _ _ Hok) as [(E0 & c0' & Hl0' & Hz')|(ck & L & EL & Hlk)].
    - rewrite E0. apply (Cell_TryAllocate_refuses _ 0 n c0'); [done|right; lia].
    - apply (Cell_TryAllocate_refuses _ _ n ck); [done|].
      apply fits_false. rewrite EL in Hno. by inversion Hno. }
  rewrite Efirst. cbn [obind]. rewrite Eupd. cbn [obind curBlock_ cells_].
  by rewrite Eretry.
Qed.

(** A list has a first cell that fits, or none. *)
Lemma first_fit_or_none n (L : list (Z * Cell)) :
  Forall (λ h, fits n h.2 = false) L ∨
  ∃ L1 b c L2, L = L1 ++ (b, c) :: L2 ∧
               Forall (λ h, fits n h.2 = false) L1 ∧ fits n c = true.
Proof.
  induction L as [|[b c] L IH]; [by left|].
  destruct (fits n c) eqn:Hc.
  - right. exists [], b, c, L. split_and!; done.
  - destruct IH as [IH|(L1 & b' & c' & L2 & -> & H1 & Hc')].
    + left. by constructor.
    + right. exists ((b, c) :: L1), b', c', L2. split_and!; try done.
      by constructor.
Qed.

Lemma elem_of_scan_order p l h : h ∈ scan_order p l ↔ h ∈ headers 1 l.
Proof.
  unfold scan_order. rewrite elem_of_app, !list_elem_of_filter.
  destruct (decide (scan_start p ≤ h.1)); split; try naive_solver.
  intros ?. right. split; [lia|done].
Qed.

Lemma u32_succ blockSize :
  0 ≤ blockSize < UINT32_MOD - 1 → u32 (blockSize + 1) = blockSize + 1.
Proof. intros. unfold u32. apply Z.mod_small. lia. Qed.

(** What a successful [TryAllocate] does to the chain. *)
Lemma TryAllocate_shape fuel p l blockSize a p' :
  page_ok p l → (Z.to_nat MEDIUM_PAGE_CELL_COUNT ≤ fuel)%nat →
  0 ≤ blockSize < UINT32_MOD - 1 →
  TryAllocate fuel p blockSize = Done (Some a, p') →
  ∃ l1 c l2,
    l = l1 ++ c :: l2 ∧ isAllocated_ c = false ∧ blockSize + 1 ≤ size_ c ∧
    a = data_ (1 + total l1) ∧
    p' = {| curBlock_ := 1 + total l1;
            cells_ := carved (cells_ p) (1 + total l1) (blockSize + 1) c |} ∧
    page_ok p' (l1 ++ (used_cell (blockSize + 1) :: remainder (blockSize + 1) c) ++ l2).
Proof.
  intros Hok Hf Hbs E. pose proof (u32_succ _ Hbs) as Hu.
  destruct (first_fit_or_none (blockSize + 1) (scan_order p l))
    as [Hno|(L1 & b & c & L2 & HL & H1 & Hc)].
  - rewrite (TryAllocate_none fuel p l blockSize Hok Hf) in E;
      [done|lia|by rewrite Hu].
  - rewrite (TryAllocate_first fuel p l blockSize L1 b c L2 Hok Hf) in E;
      [|lia|done|by rewrite Hu|by rewrite Hu].
    rewrite Hu in E. simplify_eq.
    assert ((b, c) ∈ headers 1 l) as Hin.
    { apply (scan_order_headers p). rewrite HL. apply elem_of_app. right.
      apply elem_of_cons. by left. }
    apply headers_split in Hin as (l1 & l2 & -> & ->).
    apply fits_true in Hc as [Ha Hle].
    exists l1, c, l2. split_and!; try done.
    apply (carve_page_ok p l1 c l2 (blockSize + 1)); [done|done|lia].
Qed.

(** X1: [TryAllocate] is a first fit in the order of the scan: the request is
    served from the first free cell, from the cursor to the end of the page
    and then from unit 1 up to the cursor, that has [blockSize + 1] units, the
    cursor moves to that cell and the payload starts in the unit after its
    header; when no cell of the scan has the room, the call returns null,
    the cells are unchanged and the cursor is on the earliest largest free
    cell of the scan. *)
Theorem TryAllocate_next_fit (fuel : nat) (p : MediumPage) (l : list Cell)
    (blockSize : Z) :
  page_ok p l → (Z.to_nat MEDIUM_PAGE_CELL_COUNT ≤ fuel)%nat →
  0 ≤ blockSize < UINT32_MOD - 1 →
  (∀ L1 b c L2,
     scan_order p l = L1 ++ (b, c) :: L2 →
     Forall (λ h, fits (blockSize + 1) h.2 = false) L1 →
     fits (blockSize + 1) c = true →
     TryAllocate fuel p blockSize =
       Done (Some (b + 1),
             {| curBlock_ := b; cells_ := carved (cells_ p) b (blockSize + 1) c |})) ∧
  (Forall (λ h, fits (blockSize + 1) h.2 = false) (scan_order p l) →
   ∃ b, TryAllocate fuel p blockSize =
          Done (None, {| curBlock_ := b; cells_ := cells_ p |}) ∧
        earliest_max (scan_order p l) b).
Proof.
  intros Hok Hf Hbs. pose proof (u32_succ _ Hbs) as Hu. split.
  - intros L1 b c L2 HL H1 Hc.
    rewrite (TryAllocate_first fuel p l blockSize L1 b c L2 Hok Hf);
      [by rewrite Hu|lia|done|by rewrite Hu|by rewrite Hu].
  - intros Hno. eexists. split.
    + apply (TryAllocate_none fuel p l blockSize Hok Hf); [lia|by rewrite Hu].
    + apply max_free_earliest. by apply scan_order_pos.
Qed.

(** X2: the search of [TryAllocate] is exhaustive: on a well-formed page the
    call returns, and it returns a payload exactly when some free cell of the
    page has at least [blockSize + 1] units; two neighbouring free cells that
    only together have the room do not count. *)
Theorem TryAllocate_exhaustive (fuel : nat) (p : MediumPage) (l : list Cell)
    (blockSize : Z) :
  page_ok p l → (Z.to_nat MEDIUM_PAGE_CELL_COUNT ≤ fuel)%nat →
  0 ≤ blockSize < UINT32_MOD - 1 →
  ∃ r p', TryAllocate fuel p blockSize = Done (r, p') ∧
          (is_Some r ↔ ∃ c, c ∈ l ∧ fits (blockSize + 1) c = true).
Proof.
  intros Hok Hf Hbs. pose proof (u32_succ _ Hbs) as Hu.
  destruct (first_fit_or_none (blockSize + 1) (scan_order p l))
    as [Hno|(L1 & b & c & L2 & HL & H1 & Hc)].
  - eexists _, _. split.
    + apply (TryAllocate_none fuel p l blockSize Hok Hf); [lia|by rewrite Hu].
    + split; [by intros [? ?]|]. intros (c & Hc & Hfit). exfalso.
      destruct (elem_of_cells_headers 1 _ _ Hc) as (k & Hin).
      apply (elem_of_scan_order p) in Hin. rewrite Forall_forall in Hno.
      specialize (Hno _ Hin). simpl in Hno. congruence.
  - eexists _, _. split.
    + apply (TryAllocate_first fuel p l blockSize L1 b c L2 Hok Hf);
        [lia|done|by rewrite Hu|by rewrite Hu].
    + split; [|by eauto]. intros _. exists c. split; [|done].
      apply (elem_of_headers_cells 1 _ b). apply (scan_order_headers p).
      rewrite HL. apply elem_of_app. right. apply elem_of_cons. by left.
Qed.

(** X3: for a [blockSize] below 2^32 - 1, so that [blockSize + 1] does not
    wrap in 32 bits, a successful [TryAllocate] on a well-formed page changes
    one cell of the chain: a free cell of at least [blockSize + 1] units
    becomes an allocated cell of exactly [blockSize + 1] units at the same
    place, followed by a free cell with the units left over, if any; every
    other cell stays as and where it was, the cursor is on the new cell, and
    the page is well formed. *)
Theorem TryAllocate_carves (fuel : nat) (p : MediumPage) (l : list Cell)
    (blockSize a : Z) (p' : MediumPage) :
  page_ok p l → (Z.to_nat MEDIUM_PAGE_CELL_COUNT ≤ fuel)%nat →
  0 ≤ blockSize < UINT32_MOD - 1 →
  TryAllocate fuel p blockSize = Done (Some a, p') →
  ∃ l1 c l2,
    l = l1 ++ c :: l2 ∧ isAllocated_ c = false ∧ blockSize + 1 ≤ size_ c ∧
    a = 1 + total l1 + 1 ∧ curBlock_ p' = 1 + total l1 ∧
    page_ok p' (l1 ++ [used_cell (blockSize + 1)] ++
                (if blockSize + 1 <? size_ c
                 then [free_cell (size_ c - (blockSize + 1))] else []) ++ l2).
Proof.
  intros Hok Hf Hbs E.
  destruct (TryAllocate_shape fuel p l blockSize a p' Hok Hf Hbs E)
    as (l1 & c & l2 & -> & Ha & Hle & -> & -> & Hok').
  exists l1, c, l2. split_and!; try done.
Qed.

(** X4: for a [blockSize] below 2^32 - 1, so that [blockSize + 1] does not
    wrap in 32 bits, a payload handed out by [TryAllocate] on a well-formed
    page lies within the page and overlaps no allocated cell: every cell
    allocated before the call is a cell of the page after it, with the same
    header at the same place, and ends before the header of the new cell or
    starts after the last unit of its payload. *)
Theorem TryAllocate_no_overlap (fuel : nat) (p : MediumPage) (l : list Cell)
    (blockSize a : Z) (p' : MediumPage) :
  page_ok p l → (Z.to_nat MEDIUM_PAGE_CELL_COUNT ≤ fuel)%nat →
  0 ≤ blockSize < UINT32_MOD - 1 →
  TryAllocate fuel p blockSize = Done (Some a, p') →
  2 ≤ a ∧ a + blockSize ≤ MEDIUM_PAGE_CELL_COUNT ∧
  load (cells_ p') (a - 1) = Done (used_cell (blockSize + 1)) ∧
  ∀ k d, (k, d) ∈ headers 1 l → isAllocated_ d = true →
         load (cells_ p') k = Done d ∧ (k + size_ d ≤ a - 1 ∨ a + blockSize ≤ k).
Proof.
  intros Hok Hf Hbs E.
  destruct (TryAllocate_shape fuel p l blockSize a p' Hok Hf Hbs E)
    as (l1 & c & l2 & -> & Ha & Hle & -> & -> & Hok').
  pose proof Hok as [_ Hch _]. apply chain_app in Hch as [Hc1 Hc2].
  pose proof (chain_length _ _ _ _ Hc1) as Hlen1.
  assert (total (used_cell (blockSize + 1) :: remainder (blockSize + 1) c) = size_ c)
    as Ht by (apply total_carved; lia).
  destruct Hok' as [_ Hch' _]. cbn [cells_] in *.
  assert (∀ h, h ∈ headers 1 (l1 ++ (used_cell (blockSize + 1)
                                      :: remainder (blockSize + 1) c) ++ l2) →
               load (carved (cells_ p) (1 + total l1) (blockSize + 1) c) h.1 = Done h.2)
    as Hload.
  { intros [k d] Hin. by eapply chain_headers. }
  unfold data_. split_and!.
  - lia.
  - pose proof (headers_end _ _ _ _ (1 + total l1) c Hc2) as [_ He];
      [apply elem_of_cons; by left|]. lia.
  - replace (1 + total l1 + 1 - 1) with (1 + total l1) by lia.
    apply (Hload (1 + total l1, used_cell (blockSize + 1))).
    rewrite headers_app. apply elem_of_app. right. apply elem_of_cons. by left.
  - intros k d Hin Hd. rewrite headers_app in Hin.
    apply elem_of_app in Hin as [Hin|Hin].
    + split.
      * apply (Hload (k, d)). rewrite headers_app. apply elem_of_app. by left.
      * left. pose proof (headers_end _ _ _ _ _ _ Hc1 Hin). lia.
    + apply elem_of_cons in Hin as [Hin|Hin]; [simplify_eq; congruence|].
      split.
      * apply (Hload (k, d)). rewrite headers_app. apply elem_of_app. right.
        rewrite headers_app. apply elem_of_app. right. rewrite Ht. exact Hin.
      * right. destruct Hc2 as (_ & _ & Hc2).
        pose proof (headers_end _ _ _ _ _ _ Hc2 Hin). unfold Next in *. lia.
Qed.

Lemma scan_order_cut p la lb :
  Forall (λ c, 0 < size_ c) (la ++ lb) → scan_start p = 1 + total la →
  scan_order p (la ++ lb) = headers (scan_start p) lb ++ headers 1 la.
Proof.
  intros Hp Hs. apply Forall_app in Hp as [Hp1 Hp2].
  unfold scan_order. rewrite headers_app, <- Hs, !filter_app.
  rewrite (filter_none _ (headers 1 la)), (filter_all _ (headers _ lb)).
  - rewrite (filter_all _ (headers 1 la)), (filter_none _ (headers _ lb)).
    + by rewrite app_nil_r.
    + eapply Forall_impl; [apply (headers_range _ _ Hp2)|]. simpl. lia.
    + eapply Forall_impl; [apply (headers_range _ _ Hp1)|]. simpl. lia.
  - eapply Forall_impl; [apply (headers_range _ _ Hp2)|]. simpl. lia.
  - eapply Forall_impl; [apply (headers_range _ _ Hp1)|]. simpl. lia.
Qed.

(** X5: the capacity of a fresh page: the first [TryAllocate] on the page
    [Create] returns succeeds exactly for requests of at most
    [MEDIUM_PAGE_CELL_COUNT - 2] units, and then the payload starts in unit
    2, behind the header of the single free cell. *)
Theorem fresh_page_capacity (cellCount blockSize : Z) (fuel : nat) :
  cellCount < MEDIUM_PAGE_CELL_COUNT →
  (Z.to_nat MEDIUM_PAGE_CELL_COUNT ≤ fuel)%nat →
  0 ≤ blockSize < UINT32_MOD - 1 →
  ∃ p0 r p',
    Create cellCount = Done p0 ∧
    TryAllocate fuel p0 blockSize = Done (r, p') ∧
    (blockSize + 2 ≤ MEDIUM_PAGE_CELL_COUNT → r = Some 2) ∧
    (MEDIUM_PAGE_CELL_COUNT < blockSize + 2 → r = None).
Proof.
  intros Hc Hf Hbs. pose proof (u32_succ _ Hbs) as Hu.
  destruct (Create_ok _ Hc) as [E0 Hok0].
  set (p0 := {| curBlock_ := 0;
                cells_ := <[1 := Cell_new (MEDIUM_PAGE_CELL_COUNT - 1)]>
                            (<[0 := Cell_new 0]> ∅) |}) in *.
  set (c := {| isAllocated_ := false; size_ := MEDIUM_PAGE_CELL_COUNT - 1 |}) in *.
  assert (scan_order p0 [c] = [] ++ (1, c) :: []) as Hs.
  { change [c] with ([] ++ [c]) at 1.
    rewrite (scan_order_cut p0 [] [c]); [done| |done].
    repeat constructor. simpl. lia. }
  destruct (Z_le_gt_dec (blockSize + 2) MEDIUM_PAGE_CELL_COUNT) as [Hle|Hgt].
  - eexists p0, _, _. split; [exact E0|]. split.
    + apply (TryAllocate_first fuel p0 [c] blockSize [] 1 c [] Hok0 Hf);
        [lia|exact Hs|constructor|].
      rewrite Hu. unfold fits. simpl. apply Z.leb_le. lia.
    + split; [done|lia].
  - eexists p0, _, _. split; [exact E0|]. split.
    + apply (TryAllocate_none fuel p0 [c] blockSize Hok0 Hf); [lia|].
      rewrite Hs, Hu. repeat constructor. unfold fits. simpl. apply Z.leb_gt. lia.
    + split; [lia|done].
Qed.

(** X6: consecutive allocations are contiguous: when the free cell that
    serves a request has room for a second request too, the second
    [TryAllocate] is served from the free remainder, and its payload starts
    right behind the cell of the first, [blockSize1 + 1] units after the
    first payload. *)
Theorem TryAllocate_twice_contiguous (fuel : nat) (p : MediumPage) (l : list Cell)
    (blockSize1 blockSize2 : Z) (L1 : list (Z * Cell)) (b : Z) (c : Cell)
    (L2 : list (Z * Cell)) :
  page_ok p l → (Z.to_nat MEDIUM_PAGE_CELL_COUNT ≤ fuel)%nat →
  0 ≤ blockSize1 < UINT32_MOD - 1 → 0 ≤ blockSize2 < UINT32_MOD - 1 →
  scan_order p l = L1 ++ (b, c) :: L2 →
  Forall (λ h, fits (blockSize1 + 1) h.2 = false) L1 →
  isAllocated_ c = false →
  (blockSize1 + 1) + (blockSize2 + 1) ≤ size_ c →
  ∃ p1 p2,
    TryAllocate fuel p blockSize1 = Done (Some (b + 1), p1) ∧
    TryAllocate fuel p1 blockSize2 = Done (Some (b + 1 + (blockSize1 + 1)), p2).
Proof.
  intros Hok Hf Hb1 Hb2 HL H1 Ha Hle.
  pose proof (u32_succ _ Hb1) as Hu1. pose proof (u32_succ _ Hb2) as Hu2.
  assert (fits (blockSize1 + 1) c = true) as Hc.
  { unfold fits. rewrite Ha. simpl. apply Z.leb_le. lia. }
  assert ((b, c) ∈ headers 1 l) as Hin.
  { apply (scan_order_headers p). rewrite HL. apply elem_of_app. right.
    apply elem_of_cons. by left. }
  apply headers_split in Hin as (l1 & l2 & -> & ->).
  exists {| curBlock_ := 1 + total l1;
            cells_ := carved (cells_ p) (1 + total l1) (blockSize1 + 1) c |}.
  eexists. split.
  { rewrite (TryAllocate_first fuel p _ blockSize1 L1 (1 + total l1) c L2 Hok Hf);
      [by rewrite Hu1|lia|done|by rewrite Hu1|by rewrite Hu1]. }
  pose proof (carve_page_ok p l1 c l2 (blockSize1 + 1) Hok Ha ltac:(lia)) as Hok1.
  unfold remainder in Hok1. rewrite (proj2 (Z.ltb_lt _ _)) in Hok1 by lia.
  set (p1 := {| curBlock_ := 1 + total l1;
                cells_ := carved (cells_ p) (1 + total l1) (blockSize1 + 1) c |}) in *.
  set (r := free_cell (size_ c - (blockSize1 + 1))) in *.
  assert (scan_order p1 (l1 ++ (used_cell (blockSize1 + 1) :: [r]) ++ l2) =
          [(1 + total l1, used_cell (blockSize1 + 1))] ++
          (1 + total l1 + (blockSize1 + 1), r) ::
          (headers (1 + total l1 + (blockSize1 + 1) + size_ r) l2 ++ headers 1 l1))
    as Hs.
  { assert (scan_start p1 = 1 + total l1) as Es.
    { unfold scan_start. cbn [curBlock_ p1].
      pose proof (total_length l1) as Hlen.
      destruct Hok as [_ Hch _]. apply chain_pos, Forall_app in Hch as [Hp1 _].
      specialize (Hlen Hp1). by rewrite bool_decide_eq_false_2 by lia. }
    rewrite (scan_order_cut p1 l1); [by rewrite Es|by eapply chain_pos, Hok1|done]. }
  rewrite (TryAllocate_first fuel p1 _ blockSize2 _ _ r _ Hok1 Hf ltac:(lia) Hs).
  - unfold data_.
    replace (1 + total l1 + (blockSize1 + 1) + 1)
      with (1 + total l1 + 1 + (blockSize1 + 1)) by lia.
    reflexivity.
  - repeat constructor.
  - rewrite Hu2. unfold fits, r. simpl. apply Z.leb_le. lia.
Qed.

(** ** What a sweep leaves *)

Lemma max_free_stable L m :
  Forall (λ h : Z * Cell, isAllocated_ h.2 = false → size_ h.2 ≤ m.2) L →
  max_free L m = m.
Proof.
  induction 1 as [|[b c] L Hc HL IH]; [done|]. simpl in *.
  unfold free_larger. destruct (isAllocated_ c); simpl; [done|].
  by rewrite (proj2 (Z.ltb_ge _ _)) by auto.
Qed.

(** X7: after a sweep of a well-formed page the cursor is on the largest
    free cell, so the next [TryAllocate], for a [blockSize] below 2^32 - 1,
    succeeds exactly when [blockSize + 1] units fit the cell under the
    cursor, and is then served from that cell without a search: the payload
    starts in the unit after the cursor. *)
Theorem Sweep_then_TryAllocate (fuel : nat) (p : MediumPage) (l : list Cell)
    (marks : gset Z) (blockSize : Z) :
  page_ok p l → (Z.to_nat MEDIUM_PAGE_CELL_COUNT ≤ fuel)%nat →
  0 ≤ blockSize < UINT32_MOD - 1 →
  ∃ alive p1 marks1 c r p2,
    Sweep fuel p marks = Done (alive, p1, marks1) ∧
    load (cells_ p1) (curBlock_ p1) = Done c ∧
    TryAllocate fuel p1 blockSize = Done (r, p2) ∧
    r = (if blockSize + 1 <=? size_ c then Some (curBlock_ p1 + 1) else None).
Proof.
  intros Hok Hf Hbs. pose proof (u32_succ _ Hbs) as Hu.
  destruct (Sweep_spec fuel p l marks Hok Hf) as (c1 & c2 & E & Hok1 & _).
  set (l' := coalesced (reclaimed marks 1 l)) in *.
  set (p1 := {| curBlock_ := (max_free (headers 1 l') (0, 0)).1; cells_ := c2 |}) in *.
  pose proof Hok1 as [(c0 & Hl0 & Hz) Hch1 _].
  pose proof (max_free_earliest _ (headers_pos 1 l' (chain_pos _ _ _ _ Hch1))) as Hem.
  fold (curBlock_ p1) in Hem.
  assert (∀ c, (∀ h, h ∈ headers 1 l' → isAllocated_ h.2 = false → size_ h.2 ≤ size_ c) →
               size_ c < blockSize + 1 →
               Forall (λ h, fits (u32 (blockSize + 1)) h.2 = false) (scan_order p1 l'))
    as Hnone.
  { intros c Hmax Hlt. apply Forall_forall. intros h Hin%elem_of_scan_order.
    rewrite Hu. unfold fits. destruct (isAllocated_ h.2) eqn:Hah; [done|]. simpl.
    apply Z.leb_gt. specialize (Hmax h Hin Hah). lia. }
  destruct Hem as [[E0 Hall]|(M1 & c & M2 & EM & Ha & HM1 & HM2)].
  - assert (curBlock_ p1 = 0) as Hcur0 by exact E0.
    eexists _, p1, _, c0, None, _. split; [exact E|].
    rewrite Hcur0. split; [exact Hl0|]. split.
    + apply (TryAllocate_none fuel p1 l' blockSize Hok1 Hf); [lia|].
      apply (Hnone c0); [|lia]. intros h Hin Hah.
      rewrite Forall_forall in Hall. specialize (Hall h Hin). congruence.
    + rewrite Hz. by rewrite (proj2 (Z.leb_gt _ _)) by lia.
  - assert ((curBlock_ p1, c) ∈ headers 1 l') as Hin.
    { rewrite EM. apply elem_of_app. right. apply elem_of_cons. by left. }
    pose proof (chain_headers _ _ _ _ _ _ Hch1 Hin) as Hlc.
    destruct (Z.leb_spec (blockSize + 1) (size_ c)) as [Hle|Hgt].
    + destruct (cursor_cell _ _ Hok1) as [(E0 & _)|(ck & L & EL & Hlk)].
      { pose proof (headers_end _ _ _ _ _ _ Hch1 Hin). lia. }
      assert (ck = c) by congruence. subst ck.
      eexists _, p1, _, c, _, _. split; [exact E|]. split; [exact Hlc|]. split.
      * apply (TryAllocate_first fuel p1 l' blockSize [] (curBlock_ p1) c L Hok1 Hf);
          [lia|exact EL|constructor|].
        rewrite Hu. unfold fits. rewrite Ha. simpl. by apply Z.leb_le.
      * by rewrite (proj2 (Z.leb_le _ _)) by lia.
    + eexists _, p1, _, c, None, _. split; [exact E|]. split; [exact Hlc|]. split.
      * apply (TryAllocate_none fuel p1 l' blockSize Hok1 Hf); [lia|].
        apply (Hnone c); [|lia]. intros h Hh Hah. rewrite EM in Hh.
        rewrite Forall_forall in HM1, HM2.
        apply elem_of_app in Hh as [Hh|Hh]; [specialize (HM1 h Hh Hah); lia|].
        apply elem_of_cons in Hh as [->|Hh]; [simpl; lia|by apply HM2].
      * by rewrite (proj2 (Z.leb_gt _ _)) by lia.
Qed.

(** X8: when [Sweep] returns false the page is empty again: its chain is the
    single free cell of [MEDIUM_PAGE_CELL_COUNT - 1] units in unit 1, as on a
    fresh page, and the cursor is on that cell. *)
Theorem Sweep_false_page_empty (fuel : nat) (p : MediumPage) (l : list Cell)
    (marks : gset Z) (p' : MediumPage) (marks' : gset Z) :
  page_ok p l → (Z.to_nat MEDIUM_PAGE_CELL_COUNT ≤ fuel)%nat →
  Sweep fuel p marks = Done (false, p', marks') →
  page_ok p' [free_cell (MEDIUM_PAGE_CELL_COUNT - 1)] ∧
  curBlock_ p' = 1 ∧
  load (cells_ p') 1 = Done (free_cell (MEDIUM_PAGE_CELL_COUNT - 1)).
Proof.
  intros Hok Hf E.
  destruct (Sweep_spec fuel p l marks Hok Hf) as (c1 & c2 & E' & Hok1 & Hch1 & _).
  rewrite E' in E. simplify_eq.
  match goal with H : existsb _ _ = false |- _ => rename H into Hal end.
  rewrite <- existsb_reclaimed in Hal. apply existsb_Forall_free in Hal.
  pose proof (chain_total _ _ _ _ Hch1) as Ht.
  assert (reclaimed marks 1 l ≠ []) as Hne.
  { intros En. rewrite En in Hch1. simpl in Hch1. lia. }
  assert (coalesced (reclaimed marks 1 l) = [free_cell (MEDIUM_PAGE_CELL_COUNT - 1)])
    as Ec.
  { rewrite <- (app_nil_r (reclaimed marks 1 l)).
    rewrite coalesced_run_head by done. simpl. unfold free_cell. do 2 f_equal. lia. }
  rewrite Ec in *.
  assert ((max_free (headers 1 [free_cell (MEDIUM_PAGE_CELL_COUNT - 1)]) (0, 0)).1 = 1)
    as Em.
  { simpl. unfold free_larger. simpl. by rewrite (proj2 (Z.ltb_lt _ _)) by lia. }
  rewrite Em in *. split; [done|]. split; [done|].
  destruct Hok1 as [_ Hch _]. by destruct Hch as (? & _).
Qed.

(** X9: [Sweep] never sets a mark: the marks after it are the marks before
    it without those of the payloads of the cells that were allocated, the
    only addresses whose mark it tests and clears; the mark of any other
    address is left as it was. *)
Theorem Sweep_marks (fuel : nat) (p : MediumPage) (l : list Cell) (marks : gset Z)
    (alive : bool) (p' : MediumPage) (marks' : gset Z) :
  page_ok p l → (Z.to_nat MEDIUM_PAGE_CELL_COUNT ≤ fuel)%nat →
  Sweep fuel p marks = Done (alive, p', marks') →
  ∀ x, x ∈ marks' ↔
       x ∈ marks ∧ ¬ ∃ b c, (b, c) ∈ headers 1 l ∧ isAllocated_ c = true ∧ x = b + 1.
Proof.
  intros Hok Hf E x.
  destruct (Sweep_spec fuel p l marks Hok Hf) as (c1 & c2 & E' & _).
  rewrite E' in E. simplify_eq.
  rewrite elem_of_difference, elem_of_queried. unfold data_. done.
Qed.

(** ** Searching twice *)

(** X10: [UpdateCurBlock] is idempotent on a well-formed page: called again
    with the same request, it leaves the cursor where the first call put
    it. *)
Theorem UpdateCurBlock_idempotent (fuel : nat) (p : MediumPage) (l : list Cell)
    (cellsNeeded : Z) :
  page_ok p l → (Z.to_nat MEDIUM_PAGE_CELL_COUNT ≤ fuel)%nat →
  ∃ p1, UpdateCurBlock fuel p cellsNeeded = Done p1 ∧
        UpdateCurBlock fuel p1 cellsNeeded = Done p1.
Proof.
  intros Hok Hf. set (n := cellsNeeded).
  destruct (UpdateCurBlock_ok fuel p l n Hok Hf) as (p1 & E1 & Hcells & Hok1 & _).
  exists p1. split; [exact E1|].
  pose proof Hok as [_ Hch _]. pose proof (chain_pos _ _ _ _ Hch) as Hp.
  rewrite (UpdateCurBlock_scan fuel p l n Hok Hf) in E1.
  rewrite (UpdateCurBlock_scan fuel p1 l n Hok1 Hf).
  assert (∀ b c, curBlock_ p1 = b → (b, c) ∈ headers 1 l →
                 ∃ L, scan_order p1 l = (b, c) :: L) as Hhead.
  { intros b c Eb Hin. pose proof (headers_end _ _ _ _ _ _ Hch Hin) as [Hb1 _].
    destruct (cursor_cell _ _ Hok1) as [(E0 & _)|(ck & L & EL & Hlk)]; [lia|].
    rewrite Hcells, Eb in Hlk.
    rewrite (chain_headers _ _ _ _ _ _ Hch Hin) in Hlk. simplify_eq.
    by exists L. }
  destruct (first_fit_or_none n (scan_order p l))
    as [Hno|(L1 & b & c & L2 & HL & H1 & Hc)].
  - rewrite scan_list_nofit in E1 by done. cbn [snd] in E1.
    assert (Forall (λ h : Z * Cell, fits n h.2 = false) (scan_order p1 l)) as Hno1.
    { apply Forall_forall. intros h Hin%elem_of_scan_order.
      rewrite Forall_forall in Hno. by apply Hno, elem_of_scan_order. }
    rewrite scan_list_nofit by done. cbn [snd].
    assert ((max_free (scan_order p1 l) (0, 0)).1 = curBlock_ p1) as ->;
      [|by destruct p1].
    destruct (max_free_earliest _ (scan_order_pos _ _ Hok))
      as [[E0 Hall]|(M1 & c & M2 & EM & Ha & HM1 & HM2)].
    + rewrite max_free_stable; [by simplify_eq|].
      apply Forall_forall. intros h Hin%elem_of_scan_order Hah.
      rewrite Forall_forall in Hall.
      specialize (Hall h (proj2 (elem_of_scan_order p l h) Hin)). congruence.
    + set (M := (max_free (scan_order p l) (0, 0)).1) in *.
      assert (curBlock_ p1 = M) as EM1 by (by simplify_eq).
      assert ((M, c) ∈ headers 1 l) as Hin.
      { apply (scan_order_headers p). rewrite EM. apply elem_of_app. right.
        apply elem_of_cons. by left. }
      destruct (Hhead M c EM1 Hin) as (L & EL).
      assert (0 < size_ c) as Hsz.
      { pose proof (headers_pos 1 l Hp) as HP. rewrite Forall_forall in HP.
        apply (HP (M, c) Hin). }
      rewrite EL. cbn [max_free]. unfold free_larger. rewrite Ha. cbn [negb andb snd].
      rewrite (proj2 (Z.ltb_lt 0 (size_ c))) by done.
      rewrite max_free_stable; [by rewrite EM1|].
      apply Forall_forall. intros h Hh Hah. cbn [snd].
      assert (h ∈ scan_order p l) as Hh'.
      { apply elem_of_scan_order, (elem_of_scan_order p1 l).
        rewrite EL. apply elem_of_cons. by right. }
      rewrite EM in Hh'. rewrite Forall_forall in HM1, HM2.
      apply elem_of_app in Hh' as [Hh'|Hh']; [specialize (HM1 h Hh' Hah); lia|].
      apply elem_of_cons in Hh' as [->|Hh']; [simpl; lia|by apply HM2].
  - rewrite HL in E1.
    rewrite (scan_list_hit n L1 b c L2 (0, 0) H1 Hc) in E1;
      [| rewrite <- HL; by apply scan_order_pos | by right].
    cbn [snd fst] in E1.
    assert (curBlock_ p1 = b) as Eb by (by simplify_eq).
    assert ((b, c) ∈ headers 1 l) as Hin.
    { apply (scan_order_headers p). rewrite HL. apply elem_of_app. right.
      apply elem_of_cons. by left. }
    destruct (Hhead b c Eb Hin) as (L & EL).
    change ((b, c) :: L) with ([] ++ (b, c) :: L) in EL. rewrite EL.
    rewrite (scan_list_hit n [] b c L (0, 0)); [|constructor|done| |by right].
    + cbn [snd fst]. rewrite <- Eb. by destruct p1.
    + rewrite <- EL. by apply scan_order_pos.
Qed.

(** ** The invariant checker *)

Lemma check_chain_sound fuel cells : ∀ cur,
  check_chain fuel cells cur = Done true →
  ∃ l, l ≠ [] ∧ chain cells cur MEDIUM_PAGE_CELL_COUNT l.
Proof.
  induction fuel as [|fuel IH]; intros cur H; simpl in H; [done|].
  destruct (load cells cur) as [c| | |] eqn:Hl; cbn [obind] in H; try done.
  destruct (Z.leb_spec (Next cur c) cur); [done|].
  destruct (Z.ltb_spec MEDIUM_PAGE_CELL_COUNT (Next cur c)); [done|].
  destruct (Z.eqb_spec (Next cur c) MEDIUM_PAGE_CELL_COUNT) as [E|E].
  - exists [c]. split; [done|]. simpl. unfold Next in *. split_and!; [done|lia|done].
  - apply IH in H as (l & _ & Hch). exists (c :: l). split; [done|].
    simpl. unfold Next in *. split_and!; [done|lia|done].
Qed.

Lemma check_chain_returns cells : ∀ fuel cur,
  (1 ≤ fuel)%nat → MEDIUM_PAGE_CELL_COUNT - cur ≤ Z.of_nat fuel →
  check_chain fuel cells cur ≠ Timeout.
Proof.
  induction fuel as [|fuel IH]; intros cur H1 Hf; [lia|]. simpl.
  assert (load cells cur ≠ Timeout) as Hnt
    by (unfold load; repeat case_match; done).
  destruct (load cells cur) as [c| | |] eqn:Hl; cbn [obind]; try done.
  destruct (Z.leb_spec (Next cur c) cur); [done|].
  destruct (Z.ltb_spec MEDIUM_PAGE_CELL_COUNT (Next cur c)); [done|].
  destruct (Z.eqb_spec (Next cur c) MEDIUM_PAGE_CELL_COUNT) as [E|E]; [done|].
  unfold Next in *. apply IH; lia.
Qed.

(** X11: what [CheckInvariants] checks: it returns true exactly when the
    cursor is a unit of the array and the cells from unit 1 on, each of
    positive size, reach exactly the end of the array.  It checks neither
    that the cursor is on the header of a cell nor the sentinel in unit 0. *)
Theorem CheckInvariants_true_iff (fuel : nat) (p : MediumPage) :
  (Z.to_nat MEDIUM_PAGE_CELL_COUNT ≤ fuel)%nat →
  (CheckInvariants fuel p = Done true ↔
   0 ≤ curBlock_ p < MEDIUM_PAGE_CELL_COUNT ∧
   ∃ l, l ≠ [] ∧ chain (cells_ p) 1 MEDIUM_PAGE_CELL_COUNT l).
Proof.
  intros Hf. unfold CheckInvariants. split.
  - destruct (Z.ltb_spec (curBlock_ p) 0); [done|].
    destruct (Z.leb_spec MEDIUM_PAGE_CELL_COUNT (curBlock_ p)); [done|].
    cbn [orb]. intros Hchk. split; [lia|]. by apply (check_chain_sound fuel).
  - intros [Hb (l & Hne & Hch)].
    rewrite (proj2 (Z.ltb_ge _ _)) by lia.
    rewrite (proj2 (Z.leb_gt _ _)) by lia. cbn [orb].
    apply (check_chain_ok _ l); [done|done|]. by eapply chain_fuel.
Qed.

Lemma check_chain_answers cells :
  (∀ l k, chain cells 1 k l → k < MEDIUM_PAGE_CELL_COUNT → is_Some (cells !! k)) →
  ∀ fuel cur l,
    chain cells 1 cur l → cur < MEDIUM_PAGE_CELL_COUNT →
    MEDIUM_PAGE_CELL_COUNT - cur ≤ Z.of_nat fuel →
    ∃ b, check_chain fuel cells cur = Done b.
Proof.
  intros Hmem. induction fuel as [|fuel IH]; intros cur l Hch Hlt Hf; [lia|].
  pose proof (chain_length _ _ _ _ Hch) as Hlen.
  destruct (Hmem l cur Hch Hlt) as [c Hc].
  assert (load cells cur = Done c) as Hl by (apply load_Done; split; [lia|done]).
  simpl. rewrite Hl. cbn [obind].
  destruct (Z.leb_spec (Next cur c) cur); [by eexists|].
  destruct (Z.ltb_spec MEDIUM_PAGE_CELL_COUNT (Next cur c)); [by eexists|].
  destruct (Z.eqb_spec (Next cur c) MEDIUM_PAGE_CELL_COUNT) as [E|E]; [by eexists|].
  apply (IH _ (l ++ [c])); [|lia|unfold Next in *; lia].
  apply chain_app. pose proof (chain_total _ _ _ _ Hch) as Ht.
  replace (1 + total l) with cur by lia. split; [done|].
  simpl. unfold Next in *. split_and!; [done|lia|done].
Qed.

Lemma check_chain_zero cells k c :
  load cells k = Done c → size_ c = 0 →
  ∀ l i fuel, chain cells i k l → (length l < fuel)%nat →
              check_chain fuel cells i = Done false.
Proof.
  intros Hl Hz. pose proof (proj1 (load_Done _ _ _) Hl) as [Hk _].
  induction l as [|c' l IH]; intros i f Hch Hlen.
  - simpl in Hch. subst i. destruct f as [|f]; [simpl in Hlen; lia|].
    simpl. rewrite Hl. cbn [obind]. unfold Next. rewrite Hz.
    by rewrite (proj2 (Z.leb_le _ _)) by lia.
  - destruct f as [|f]; [simpl in Hlen; lia|].
    pose proof (chain_length _ _ _ _ Hch) as Hlen'. simpl in Hlen'.
    destruct Hch as (Hl' & Hs' & Hch). simpl. rewrite Hl'. cbn [obind].
    pose proof (chain_length _ _ _ _ Hch). unfold Next in *.
    rewrite (proj2 (Z.leb_gt _ _)) by lia.
    rewrite (proj2 (Z.ltb_ge _ _)) by lia.
    rewrite (proj2 (Z.eqb_neq _ _)) by lia.
    apply IH; [done|simpl in Hlen; lia].
Qed.

(** X12: [CheckInvariants] comes to an answer on every state of the page in
    which the units its walk reaches hold a header, as every unit of the
    array of the source does: each step of the walk moves forward and stays
    below the end of the array, so within [MEDIUM_PAGE_CELL_COUNT] steps it
    returns true or false, whatever the sizes and flags in the headers; and
    a header of size 0 met on the way makes the answer false. *)
Theorem CheckInvariants_terminates (fuel : nat) (p : MediumPage) :
  (Z.to_nat MEDIUM_PAGE_CELL_COUNT ≤ fuel)%nat →
  (∀ l k, chain (cells_ p) 1 k l → k < MEDIUM_PAGE_CELL_COUNT →
          is_Some (cells_ p !! k)) →
  ∃ b, CheckInvariants fuel p = Done b ∧
       (∀ l k c, chain (cells_ p) 1 k l → load (cells_ p) k = Done c →
                 size_ c = 0 → b = false).
Proof.
  intros Hf Hmem. unfold CheckInvariants.
  destruct ((curBlock_ p <? 0) || (MEDIUM_PAGE_CELL_COUNT <=? curBlock_ p)).
  { by exists false. }
  destruct (check_chain_answers (cells_ p) Hmem fuel 1 []) as [b Hb];
    [done|lia|lia|].
  exists b. split; [done|]. intros l k c Hch Hl Hz.
  pose proof (chain_length _ _ _ _ Hch) as Hlen.
  pose proof (proj1 (load_Done _ _ _) Hl) as [Hk _].
  rewrite (check_chain_zero (cells_ p) k c Hl Hz l 1 fuel Hch) in Hb by lia.
  congruence.
Qed.

(** X13: the loops of [Sweep] advance by the size of the cell they are on: on
    a page whose first cell has size 0, which [CheckInvariants] reports as
    broken, [Sweep] never returns. *)
Theorem Sweep_needs_positive_sizes (p : MediumPage) (c : Cell) (marks : gset Z) :
  load (cells_ p) 1 = Done c → size_ c = 0 →
  ∀ fuel, Sweep fuel p marks = Timeout.
Proof.
  assert (∀ fuel cells marks alive c, load cells 1 = Done c → size_ c = 0 →
            reclaim fuel cells marks alive 1 = Timeout) as Hloop.
  { clear p c marks.
    intros fuel. induction fuel as [|fuel IH]; intros cells marks alive c Hl Hz.
    - simpl. by rewrite bool_decide_eq_false_2 by lia.
    - rewrite reclaim_S, bool_decide_eq_false_2 by lia. rewrite Hl. cbn [obind].
      assert (Next 1 c = 1) as En by (unfold Next; lia).
      destruct (isAllocated_ c); [|rewrite En; by eapply IH].
      unfold TryResetMark. destruct (bool_decide (data_ 1 ∈ marks)).
      + rewrite En. by eapply IH.
      + rewrite store_Done by lia. cbn [obind]. rewrite load_insert_eq by lia.
        cbn [obind]. change (Next 1 (Deallocate c)) with (Next 1 c). rewrite En.
        eapply IH; [by apply load_insert_eq; lia|done]. }
  intros Hl Hz fuel. unfold Sweep.
  by rewrite (Hloop fuel _ marks false c Hl Hz).
Qed.

(** ** After a failed allocation *)

(** The page a failed [TryAllocate] leaves. *)
Lemma TryAllocate_failed fuel p l blockSize p1 :
  page_ok p l → (Z.to_nat MEDIUM_PAGE_CELL_COUNT ≤ fuel)%nat →
  0 ≤ blockSize < UINT32_MOD - 1 →
  TryAllocate fuel p blockSize = Done (None, p1) →
  Forall (λ h, fits (blockSize + 1) h.2 = false) (scan_order p l) ∧
  p1 = {| curBlock_ := (max_free (scan_order p l) (0, 0)).1; cells_ := cells_ p |} ∧
  page_ok p1 l.
Proof.
  intros Hok Hf Hbs E. pose proof (u32_succ _ Hbs) as Hu.
  destruct (first_fit_or_none (blockSize + 1) (scan_order p l))
    as [Hno|(L1 & b & c & L2 & HL & H1 & Hc)].
  - rewrite (TryAllocate_none fuel p l blockSize Hok Hf) in E;
      [|lia|by rewrite Hu].
    simplify_eq. split_and!; [done|done|].
    destruct Hok as [Hs Hch _]. split; cbn [curBlock_ cells_]; [done|done|].
    assert (Forall (λ h : Z * Cell, 0 < size_ h.2) (scan_order p l)) as Hp.
    { apply Forall_forall. intros h Hin%elem_of_scan_order.
      pose proof (headers_pos 1 l (chain_pos _ _ _ _ Hch)) as HP.
      rewrite Forall_forall in HP. by apply HP. }
    destruct (max_free_earliest _ Hp) as [[-> _]|(M1 & c & M2 & EM & _)]; [by left|right].
    apply (headers_in_starts 1 l _ c), (scan_order_headers p).
    rewrite EM at 2. apply elem_of_app. right. apply elem_of_cons. by left.
  - rewrite (TryAllocate_first fuel p l blockSize L1 b c L2 Hok Hf) in E;
      [done|lia|done|by rewrite Hu|by rewrite Hu].
Qed.

(** The largest free cell stays the largest when the scan starts from it. *)
Lemma max_free_again p p1 l :
  page_ok p l → page_ok p1 l → cells_ p1 = cells_ p →
  curBlock_ p1 = (max_free (scan_order p l) (0, 0)).1 →
  (max_free (scan_order p1 l) (0, 0)).1 = curBlock_ p1.
Proof.
  intros Hok Hok1 Hcells Hcur.
  pose proof Hok as [_ Hch _]. pose proof (chain_pos _ _ _ _ Hch) as Hp.
  destruct (max_free_earliest _ (scan_order_pos _ _ Hok))
    as [[E0 Hall]|(M1 & c & M2 & EM & Ha & HM1 & HM2)].
  - rewrite max_free_stable; [by rewrite Hcur, E0|].
    apply Forall_forall. intros h Hin%elem_of_scan_order Hah.
    rewrite Forall_forall in Hall.
    specialize (Hall h (proj2 (elem_of_scan_order p l h) Hin)). congruence.
  - rewrite <- Hcur in EM.
    assert ((curBlock_ p1, c) ∈ headers 1 l) as Hin.
    { apply (scan_order_headers p). rewrite EM. apply elem_of_app. right.
      apply elem_of_cons. by left. }
    pose proof (headers_end _ _ _ _ _ _ Hch Hin) as [Hb1 _].
    destruct (cursor_cell _ _ Hok1) as [(E0 & _)|(ck & L & EL & Hlk)]; [lia|].
    rewrite Hcells, (chain_headers _ _ _ _ _ _ Hch Hin) in Hlk.
    assert (ck = c) as -> by congruence.
    assert (0 < size_ c) as Hsz.
    { pose proof (headers_pos 1 l Hp) as HP. rewrite Forall_forall in HP.
      apply (HP (curBlock_ p1, c) Hin). }
    rewrite EL. cbn [max_free]. unfold free_larger. rewrite Ha. cbn [negb andb snd].
    rewrite (proj2 (Z.ltb_lt 0 (size_ c))) by done.
    rewrite max_free_stable; [done|].
    apply Forall_forall. intros h Hh Hah. cbn [snd].
    assert (h ∈ scan_order p l) as Hh'.
    { apply elem_of_scan_order, (elem_of_scan_order p1 l).
      rewrite EL. apply elem_of_cons. by right. }
    rewrite EM in Hh'. rewrite Forall_forall in HM1, HM2.
    apply elem_of_app in Hh' as [Hh'|Hh']; [specialize (HM1 h Hh' Hah); lia|].
    apply elem_of_cons in Hh' as [->|Hh']; [simpl; lia|by apply HM2].
Qed.

(** X14: a failed [TryAllocate] is stable: it leaves every cell as it was,
    and the same request made again fails again and changes nothing, not
    even the cursor. *)
Theorem TryAllocate_failure_stable (fuel : nat) (p : MediumPage) (l : list Cell)
    (blockSize : Z) (p1 : MediumPage) :
  page_ok p l → (Z.to_nat MEDIUM_PAGE_CELL_COUNT ≤ fuel)%nat →
  0 ≤ blockSize < UINT32_MOD - 1 →
  TryAllocate fuel p blockSize = Done (None, p1) →
  cells_ p1 = cells_ p ∧ TryAllocate fuel p1 blockSize = Done (None, p1).
Proof.
  intros Hok Hf Hbs E. pose proof (u32_succ _ Hbs) as Hu.
  destruct (TryAllocate_failed fuel p l blockSize p1 Hok Hf Hbs E)
    as (Hno & Ep1 & Hok1).
  assert (cells_ p1 = cells_ p) as Hcells by (by rewrite Ep1).
  assert (curBlock_ p1 = (max_free (scan_order p l) (0, 0)).1) as Hcur
    by (by rewrite Ep1).
  split; [done|].
  rewrite (TryAllocate_none fuel p1 l blockSize Hok1 Hf); [|lia|].
  - rewrite (max_free_again p p1 l Hok Hok1 Hcells Hcur). by destruct p1.
  - rewrite Hu. apply Forall_forall. intros h Hin%elem_of_scan_order.
    rewrite Forall_forall in Hno. by apply Hno, elem_of_scan_order.
Qed.

(** X15: a failed [TryAllocate] on a well-formed page leaves the cursor on
    the largest free cell of the page, so the next request succeeds exactly
    when it fits the cell under the cursor, and is then served from that
    cell: the payload starts in the unit after the cursor.  Both requests
    are for a block size below 2^32 - 1, so that [blockSize + 1] does not
    wrap in 32 bits. *)
Theorem TryAllocate_after_failure (fuel : nat) (p : MediumPage) (l : list Cell)
    (blockSize1 blockSize2 : Z) (p1 : MediumPage) :
  page_ok p l → (Z.to_nat MEDIUM_PAGE_CELL_COUNT ≤ fuel)%nat →
  0 ≤ blockSize1 < UINT32_MOD - 1 → 0 ≤ blockSize2 < UINT32_MOD - 1 →
  TryAllocate fuel p blockSize1 = Done (None, p1) →
  ∃ c r p2,
    load (cells_ p1) (curBlock_ p1) = Done c ∧
    TryAllocate fuel p1 blockSize2 = Done (r, p2) ∧
    r = (if blockSize2 + 1 <=? size_ c then Some (curBlock_ p1 + 1) else None).
Proof.
  intros Hok Hf Hb1 Hb2 E. pose proof (u32_succ _ Hb2) as Hu.
  destruct (TryAllocate_failed fuel p l blockSize1 p1 Hok Hf Hb1 E)
    as (_ & Ep1 & Hok1).
  assert (cells_ p1 = cells_ p) as Hcells by (by rewrite Ep1).
  assert (curBlock_ p1 = (max_free (scan_order p l) (0, 0)).1) as Hcur
    by (by rewrite Ep1).
  pose proof Hok1 as [(c0 & Hl0 & Hz) Hch1 _].
  pose proof (max_free_earliest _ (scan_order_pos _ _ Hok)) as Hem.
  rewrite <- Hcur in Hem.
  assert (∀ c, (∀ h, h ∈ headers 1 l → isAllocated_ h.2 = false → size_ h.2 ≤ size_ c) →
               size_ c < blockSize2 + 1 →
               Forall (λ h, fits (u32 (blockSize2 + 1)) h.2 = false) (scan_order p1 l))
    as Hnone.
  { intros c Hmax Hlt. apply Forall_forall. intros h Hin%elem_of_scan_order.
    rewrite Hu. unfold fits. destruct (isAllocated_ h.2) eqn:Hah; [done|]. simpl.
    apply Z.leb_gt. specialize (Hmax h Hin Hah). lia. }
  destruct Hem as [[E0 Hall]|(M1 & c & M2 & EM & Ha & HM1 & HM2)].
  - eexists c0, None, _. rewrite E0. split; [exact Hl0|]. split.
    + apply (TryAllocate_none fuel p1 l blockSize2 Hok1 Hf); [lia|].
      apply (Hnone c0); [|lia]. intros h Hin Hah.
      rewrite Forall_forall in Hall.
      specialize (Hall h (proj2 (elem_of_scan_order p l h) Hin)). congruence.
    + rewrite Hz. by rewrite (proj2 (Z.leb_gt _ _)) by lia.
  - assert ((curBlock_ p1, c) ∈ headers 1 l) as Hin.
    { apply (scan_order_headers p). rewrite EM. apply elem_of_app. right.
      apply elem_of_cons. by left. }
    pose proof (chain_headers _ _ _ _ _ _ Hch1 Hin) as Hlc.
    destruct (Z.leb_spec (blockSize2 + 1) (size_ c)) as [Hle|Hgt].
    + destruct (cursor_cell _ _ Hok1) as [(E0 & _)|(ck & L & EL & Hlk)].
      { pose proof (headers_end _ _ _ _ _ _ Hch1 Hin). lia. }
      assert (ck = c) by congruence. subst ck.
      eexists c, _, _. split; [exact Hlc|]. split.
      * apply (TryAllocate_first fuel p1 l blockSize2 [] (curBlock_ p1) c L Hok1 Hf);
          [lia|exact EL|constructor|].
        rewrite Hu. unfold fits. rewrite Ha. simpl. by apply Z.leb_le.
      * by rewrite (proj2 (Z.leb_le _ _)) by lia.
    + eexists c, None, _. split; [exact Hlc|]. split.
      * apply (TryAllocate_none fuel p1 l blockSize2 Hok1 Hf); [lia|].
        apply (Hnone c); [|lia]. intros h Hh Hah.
        apply (elem_of_scan_order p) in Hh. rewrite EM in Hh.
        rewrite Forall_forall in HM1, HM2.
        apply elem_of_app in Hh as [Hh|Hh]; [specialize (HM1 h Hh Hah); lia|].
        apply elem_of_cons in Hh as [->|Hh]; [simpl; lia|by apply HM2].
      * by rewrite (proj2 (Z.leb_gt _ _)) by lia.
Qed.

End Page.

(** * The claims on the page of 16 units *)

Lemma range16 : 2 ≤ 16 < UINT32_MOD.
Proof. unfold UINT32_MOD. lia. Defined.

Lemma fuel16 : (Z.to_nat 16 ≤ 16)%nat.
Proof. simpl. lia. Defined.

Ltac page_ok_by_evaluation :=
  split;
  [ eexists; split; [vm_compute; reflexivity|reflexivity]
  | cbn [chain]; repeat split; vm_compute; reflexivity
  | first [by left | right; simpl; repeat (first [by left | right]);
                     rewrite !elem_of_cons; tauto ] ].

Lemma one_used16_ok : page_ok 16 one_used16 [used_cell 6; free_cell 9].
Proof. page_ok_by_evaluation. Defined.

Lemma two_used16_ok : page_ok 16 two_used16 [used_cell 6; used_cell 9].
Proof. page_ok_by_evaluation. Defined.

Lemma mixed16_ok :
  page_ok 16 mixed16 [free_cell 3; used_cell 4; free_cell 2; used_cell 6].
Proof. page_ok_by_evaluation. Defined.

Example create_fresh16 : Create 16 0 = Done fresh16.
Proof. vm_compute. reflexivity. Qed.

Example allocate_5 : TryAllocate 16 16 fresh16 5 = Done (Some 2, one_used16).
Proof. vm_compute. reflexivity. Qed.

Example allocate_20 : TryAllocate 16 16 one_used16 20 = Done (None, one_used_swept16).
Proof. vm_compute. reflexivity. Qed.

Example allocate_8 : TryAllocate 16 16 one_used_swept16 8 = Done (Some 8, two_used16).
Proof. vm_compute. reflexivity. Qed.

Example sweep_marked : Sweep 16 16 two_used16 {[2]} = Done (true, one_used_swept16, ∅).
Proof. vm_compute. reflexivity. Qed.

Example run_scenario16 : run 16 16 scenario16 (fresh16, ∅) = Done (two_used16, ∅).
Proof. vm_compute. reflexivity. Qed.

(** The allocation of 2^32 - 1 units asks for [u32 (2^32)] = 0 cells. *)
Example allocate_max_u32 :
  TryAllocate 16 16 two_used16 4294967295 =
    Done (Some 1, {| curBlock_ := 0;
                     cells_ := list_to_map [(0, used_cell 0); (1, used_cell 6);
                                            (7, used_cell 9)] |}).
Proof. vm_compute. reflexivity. Qed.

Lemma CheckInvariants_always_witness :
  2 ≤ 16 < UINT32_MOD ∧ 0 < 16 ∧ (Z.to_nat 16 ≤ 16)%nat ∧
  ∃ p0 p marks',
    Create 16 0 = Done p0 ∧
    run 16 16 scenario16 (p0, ∅) = Done (p, marks') ∧
    CheckInvariants 16 16 p = Done true ∧
    0 ≤ curBlock_ p < 16 ∧
    ∃ l, chain 16 (cells_ p) 1 16 l.
Proof.
  split; [exact range16|]. split; [lia|]. split; [exact fuel16|].
  apply (CheckInvariants_always 16 range16 0 scenario16 ∅ 16); [lia|exact fuel16].
Defined.

Lemma Sweep_reclaims_witness :
  page_ok 16 two_used16 [used_cell 6; used_cell 9] ∧ (Z.to_nat 16 ≤ 16)%nat ∧
  ∃ alive p' marks' l',
    Sweep 16 16 two_used16 {[2]} = Done (alive, p', marks') ∧ page_ok 16 p' l' ∧
    (∀ b c, (b, c) ∈ headers 1 [used_cell 6; used_cell 9] → isAllocated_ c = true →
       data_ b ∈ ({[2]} : gset Z) →
       (b, c) ∈ headers 1 l' ∧ load 16 (cells_ p') b = Done c ∧ data_ b ∉ marks') ∧
    (∀ b c, (b, c) ∈ headers 1 [used_cell 6; used_cell 9] → isAllocated_ c = true →
       data_ b ∉ ({[2]} : gset Z) →
       ∃ k d, (k, d) ∈ headers 1 l' ∧ isAllocated_ d = false ∧
              k ≤ b ∧ b + size_ c ≤ k + size_ d) ∧
    (∀ b c, (b, c) ∈ headers 1 [used_cell 6; used_cell 9] → isAllocated_ c = false →
       ∃ k d, (k, d) ∈ headers 1 l' ∧ isAllocated_ d = false ∧
              k ≤ b ∧ b + size_ c ≤ k + size_ d) ∧
    (∀ k d, (k, d) ∈ headers 1 l' → isAllocated_ d = true →
       (k, d) ∈ headers 1 [used_cell 6; used_cell 9] ∧ data_ k ∈ ({[2]} : gset Z)) ∧
    (alive = true ↔ ∃ d, d ∈ l' ∧ isAllocated_ d = true).
Proof.
  split; [exact two_used16_ok|]. split; [exact fuel16|].
  exact (Sweep_reclaims 16 range16 16 two_used16 _ {[2]} two_used16_ok fuel16).
Defined.

(** C3, refuted as stated: the cell allocated by [TryAllocate(5)] survives a
    first sweep that finds it marked, and is freed by the second one, which
    finds its mark cleared; the two calls return true and false. *)
Lemma Sweep_twice_counterexample :
  Create 16 0 = Done fresh16 ∧
  TryAllocate 16 16 fresh16 5 = Done (Some 2, one_used16) ∧
  Sweep 16 16 one_used16 {[2]} = Done (true, one_used_swept16, ∅) ∧
  Sweep 16 16 one_used_swept16 ∅ = Done (false, all_free16, ∅) ∧
  all_free16 ≠ one_used_swept16 ∧ false ≠ true.
Proof.
  split_and!; try (vm_compute; reflexivity); discriminate.
Qed.

Lemma Sweep_twice_witness :
  page_ok 16 one_used16 [used_cell 6; free_cell 9] ∧ (Z.to_nat 16 ≤ 16)%nat ∧
  ∃ alive p1 marks1 p2,
    Sweep 16 16 one_used16 {[2]} = Done (alive, p1, marks1) ∧
    Sweep 16 16 p1 marks1 = Done (false, p2, marks1) ∧
    (p2 = p1 ↔ alive = false).
Proof.
  split; [exact one_used16_ok|]. split; [exact fuel16|].
  exact (Sweep_twice 16 range16 16 one_used16 _ {[2]} one_used16_ok fuel16).
Defined.

(** C4, refuted as stated: [TryAllocate(20)] fails on the fresh page and
    leaves the cursor on unit 1, where [UpdateCurBlock] put it. *)
Lemma TryAllocate_failure_counterexample :
  Create 16 0 = Done fresh16 ∧
  TryAllocate 16 16 fresh16 20 = Done (None, fresh_moved16) ∧
  fresh_moved16 ≠ fresh16.
Proof.
  split_and!; try (vm_compute; reflexivity); discriminate.
Qed.

Lemma TryAllocate_failure_keeps_cells_witness :
  TryAllocate 16 16 fresh16 20 = Done (None, fresh_moved16) ∧
  cells_ fresh_moved16 = cells_ fresh16.
Proof.
  assert (TryAllocate 16 16 fresh16 20 = Done (None, fresh_moved16)) as E
    by (vm_compute; reflexivity).
  split; [exact E|].
  exact (TryAllocate_failure_keeps_cells 16 16 fresh16 20 fresh_moved16 E).
Defined.

Lemma UpdateCurBlock_first_fit_witness :
  page_ok 16 mixed16 [free_cell 3; used_cell 4; free_cell 2; used_cell 6] ∧
  (Z.to_nat 16 ≤ 16)%nat ∧
  scan_order mixed16 [free_cell 3; used_cell 4; free_cell 2; used_cell 6] =
    [(8, free_cell 2); (10, used_cell 6)] ++ (1, free_cell 3) :: [(4, used_cell 4)] ∧
  Forall (λ h, fits 3 h.2 = false) [(8, free_cell 2); (10, used_cell 6)] ∧
  fits 3 (free_cell 3) = true ∧
  UpdateCurBlock 16 16 mixed16 3 = Done {| curBlock_ := 1; cells_ := cells_ mixed16 |}.
Proof.
  assert (scan_order mixed16 [free_cell 3; used_cell 4; free_cell 2; used_cell 6] =
    [(8, free_cell 2); (10, used_cell 6)] ++ (1, free_cell 3) :: [(4, used_cell 4)])
    as Hs by (vm_compute; reflexivity).
  assert (Forall (λ h : Z * Cell, fits 3 h.2 = false)
            [(8, free_cell 2); (10, used_cell 6)]) as HF
    by (repeat constructor).
  split; [exact mixed16_ok|]. split; [exact fuel16|]. split; [exact Hs|].
  split; [exact HF|]. split; [reflexivity|].
  exact (UpdateCurBlock_first_fit 16 range16 16 mixed16 _ 3 _ 1 _ _
           mixed16_ok fuel16 Hs HF eq_refl).
Defined.



Lemma Sweep_coalesces_witness :
  page_ok 16 two_used16 [used_cell 6; used_cell 9] ∧ (Z.to_nat 16 ≤ 16)%nat ∧
  reclaimed ∅ 1 [used_cell 6; used_cell 9] = [] ++ free_cell 6 :: free_cell 9 :: [] ∧
  ∃ alive p' marks',
    Sweep 16 16 two_used16 ∅ = Done (alive, p', marks') ∧
    page_ok 16 p' (coalesced (reclaimed ∅ 1 [used_cell 6; used_cell 9])) ∧
    separated (coalesced (reclaimed ∅ 1 [used_cell 6; used_cell 9])) ∧
    load 16 (cells_ p') 1 = Done (free_cell (6 + 9)) ∧
    earliest_max (headers 1 (coalesced (reclaimed ∅ 1 [used_cell 6; used_cell 9])))
                 (curBlock_ p').
Proof.
  assert (reclaimed ∅ 1 [used_cell 6; used_cell 9] =
          [] ++ free_cell 6 :: free_cell 9 :: []) as Er by (vm_compute; reflexivity).
  split; [exact two_used16_ok|]. split; [exact fuel16|]. split; [exact Er|].
  destruct (Sweep_coalesces 16 range16 16 two_used16 _ ∅ two_used16_ok fuel16)
    as (alive & p' & marks' & E & Hok & Hsep & Hpair & _ & Hmax).
  exists alive, p', marks'.
  split; [exact E|]. split; [exact Hok|]. split; [exact Hsep|]. split; [|exact Hmax].
  exact (Hpair [] (free_cell 6) (free_cell 9) [] Er eq_refl eq_refl I I).
Defined.

(** The two cells of [two_used16], both unmarked, are one free cell of size
    [6 + 9] after the sweep, and the cursor is on it. *)
Example sweep_merges_6_and_9 :
  Sweep 16 16 two_used16 ∅ =
    Done (false,
          {| curBlock_ := 1;
             cells_ := list_to_map [(0, free_cell 0); (1, free_cell 15);
                                    (7, free_cell 9)] |},
          ∅).
Proof. vm_compute. reflexivity. Qed.

Lemma Create_aborts_iff_witness :
  2 ≤ 16 < UINT32_MOD ∧
  (Create 16 0 = Abort ↔ 16 ≤ 0) ∧
  (0 < 16 →
   ∃ p, Create 16 0 = Done p ∧
        curBlock_ p = 0 ∧
        load 16 (cells_ p) 0 = Done {| isAllocated_ := false; size_ := 0 |} ∧
        load 16 (cells_ p) 1 = Done {| isAllocated_ := false; size_ := 16 - 1 |} ∧
        chain 16 (cells_ p) 1 16 [ {| isAllocated_ := false; size_ := 16 - 1 |} ]).
Proof.
  split; [exact range16|]. exact (Create_aborts_iff 16 range16 0).
Defined.

Example create_16_aborts : Create 16 16 = Abort.
Proof. reflexivity. Qed.

Lemma Create_ignores_cellCount_witness :
  2 ≤ 16 < UINT32_MOD ∧ 0 < 16 ∧ 5 < 16 ∧
  ∃ p, Create 16 0 = Done p ∧ Create 16 5 = Done p ∧
       curBlock_ p = 0 ∧
       load 16 (cells_ p) 1 = Done {| isAllocated_ := false; size_ := 16 - 1 |}.
Proof.
  split; [exact range16|]. split; [lia|]. split; [lia|].
  apply (Create_ignores_cellCount 16 range16 0 5); lia.
Defined.

Lemma cursor_free_after_witness :
  page_ok 16 mixed16 [free_cell 3; used_cell 4; free_cell 2; used_cell 6] ∧
  (Z.to_nat 16 ≤ 16)%nat ∧
  UpdateCurBlock 16 16 mixed16 5 = Done {| curBlock_ := 1; cells_ := cells_ mixed16 |} ∧
  unit0_or_free 16 (cells_ mixed16) 1 ∧
  (∀ cellsNeeded, ∃ p',
     UpdateCurBlock 16 16 mixed16 cellsNeeded = Done p' ∧ cursor_free 16 p') ∧
  (∀ marks, ∃ alive p' marks',
     Sweep 16 16 mixed16 marks = Done (alive, p', marks') ∧ cursor_free 16 p').
Proof.
  assert (UpdateCurBlock 16 16 mixed16 5 =
          Done {| curBlock_ := 1; cells_ := cells_ mixed16 |}) as E
    by (vm_compute; reflexivity).
  destruct (cursor_free_after 16 range16 16 mixed16) as (Hu & _ & Hok).
  split; [exact mixed16_ok|]. split; [exact fuel16|]. split; [exact E|].
  split; [exact (Hu 5 _ E)|].
  exact (Hok _ mixed16_ok fuel16).
Defined.

(** * The further properties on the page of 16 units *)

Lemma fresh16_ok : page_ok 16 fresh16 [free_cell 15].
Proof. page_ok_by_evaluation. Defined.

Lemma one_used_swept16_ok : page_ok 16 one_used_swept16 [used_cell 6; free_cell 9].
Proof. page_ok_by_evaluation. Defined.

Lemma blockSize_range16 (blockSize : Z) :
  0 ≤ blockSize < 16 → 0 ≤ blockSize < UINT32_MOD - 1.
Proof. unfold UINT32_MOD. lia. Defined.

Lemma TryAllocate_next_fit_witness :
  page_ok 16 mixed16 [free_cell 3; used_cell 4; free_cell 2; used_cell 6] ∧
  (Z.to_nat 16 ≤ 16)%nat ∧ 0 ≤ 2 < UINT32_MOD - 1 ∧
  TryAllocate 16 16 mixed16 2 =
    Done (Some (1 + 1),
          {| curBlock_ := 1;
             cells_ := carved (cells_ mixed16) 1 (2 + 1) (free_cell 3) |}).
Proof.
  assert (0 ≤ 2 < UINT32_MOD - 1) as Hbs by (apply blockSize_range16; lia).
  split; [exact mixed16_ok|]. split; [exact fuel16|]. split; [exact Hbs|].
  destruct (TryAllocate_next_fit 16 range16 16 mixed16 _ 2 mixed16_ok fuel16 Hbs)
    as [Hfit _].
  apply (Hfit [(8, free_cell 2); (10, used_cell 6)] 1 (free_cell 3) [(4, used_cell 4)]);
    [vm_compute; reflexivity|repeat constructor|reflexivity].
Defined.

Lemma TryAllocate_exhaustive_witness :
  page_ok 16 mixed16 [free_cell 3; used_cell 4; free_cell 2; used_cell 6] ∧
  (Z.to_nat 16 ≤ 16)%nat ∧ 0 ≤ 4 < UINT32_MOD - 1 ∧
  ∃ r p', TryAllocate 16 16 mixed16 4 = Done (r, p') ∧
          (is_Some r ↔
           ∃ c, c ∈ [free_cell 3; used_cell 4; free_cell 2; used_cell 6] ∧
                fits (4 + 1) c = true).
Proof.
  assert (0 ≤ 4 < UINT32_MOD - 1) as Hbs by (apply blockSize_range16; lia).
  split; [exact mixed16_ok|]. split; [exact fuel16|]. split; [exact Hbs|].
  exact (TryAllocate_exhaustive 16 range16 16 mixed16 _ 4 mixed16_ok fuel16 Hbs).
Defined.

Lemma TryAllocate_carves_witness :
  page_ok 16 fresh16 [free_cell 15] ∧ (Z.to_nat 16 ≤ 16)%nat ∧
  0 ≤ 5 < UINT32_MOD - 1 ∧
  TryAllocate 16 16 fresh16 5 = Done (Some 2, one_used16) ∧
  ∃ l1 c l2,
    [free_cell 15] = l1 ++ c :: l2 ∧ isAllocated_ c = false ∧ 5 + 1 ≤ size_ c ∧
    2 = 1 + total l1 + 1 ∧ curBlock_ one_used16 = 1 + total l1 ∧
    page_ok 16 one_used16
      (l1 ++ [used_cell (5 + 1)] ++
       (if 5 + 1 <? size_ c then [free_cell (size_ c - (5 + 1))] else []) ++ l2).
Proof.
  assert (0 ≤ 5 < UINT32_MOD - 1) as Hbs by (apply blockSize_range16; lia).
  assert (TryAllocate 16 16 fresh16 5 = Done (Some 2, one_used16)) as E
    by (vm_compute; reflexivity).
  split; [exact fresh16_ok|]. split; [exact fuel16|]. split; [exact Hbs|].
  split; [exact E|].
  exact (TryAllocate_carves 16 range16 16 fresh16 _ 5 2 one_used16
           fresh16_ok fuel16 Hbs E).
Defined.

Lemma TryAllocate_no_overlap_witness :
  page_ok 16 one_used_swept16 [used_cell 6; free_cell 9] ∧ (Z.to_nat 16 ≤ 16)%nat ∧
  0 ≤ 8 < UINT32_MOD - 1 ∧
  TryAllocate 16 16 one_used_swept16 8 = Done (Some 8, two_used16) ∧
  2 ≤ 8 ∧ 8 + 8 ≤ 16 ∧
  load 16 (cells_ two_used16) (8 - 1) = Done (used_cell (8 + 1)) ∧
  ∀ k d, (k, d) ∈ headers 1 [used_cell 6; free_cell 9] → isAllocated_ d = true →
         load 16 (cells_ two_used16) k = Done d ∧ (k + size_ d ≤ 8 - 1 ∨ 8 + 8 ≤ k).
Proof.
  assert (0 ≤ 8 < UINT32_MOD - 1) as Hbs by (apply blockSize_range16; lia).
  assert (TryAllocate 16 16 one_used_swept16 8 = Done (Some 8, two_used16)) as E
    by (vm_compute; reflexivity).
  split; [exact one_used_swept16_ok|]. split; [exact fuel16|]. split; [exact Hbs|].
  split; [exact E|].
  exact (TryAllocate_no_overlap 16 range16 16 one_used_swept16 _ 8 8 two_used16
           one_used_swept16_ok fuel16 Hbs E).
Defined.

Lemma fresh_page_capacity_witness :
  2 ≤ 16 < UINT32_MOD ∧ 0 < 16 ∧ (Z.to_nat 16 ≤ 16)%nat ∧ 0 ≤ 14 < UINT32_MOD - 1 ∧
  ∃ p0 r p',
    Create 16 0 = Done p0 ∧
    TryAllocate 16 16 p0 14 = Done (r, p') ∧
    (14 + 2 ≤ 16 → r = Some 2) ∧
    (16 < 14 + 2 → r = None).
Proof.
  assert (0 ≤ 14 < UINT32_MOD - 1) as Hbs by (apply blockSize_range16; lia).
  split; [exact range16|]. split; [lia|]. split; [exact fuel16|]. split; [exact Hbs|].
  apply (fresh_page_capacity 16 range16 0 14 16); [lia|exact fuel16|exact Hbs].
Defined.

Lemma TryAllocate_twice_contiguous_witness :
  page_ok 16 fresh16 [free_cell 15] ∧ (Z.to_nat 16 ≤ 16)%nat ∧
  0 ≤ 5 < UINT32_MOD - 1 ∧ 0 ≤ 3 < UINT32_MOD - 1 ∧
  scan_order fresh16 [free_cell 15] = [] ++ (1, free_cell 15) :: [] ∧
  isAllocated_ (free_cell 15) = false ∧ (5 + 1) + (3 + 1) ≤ size_ (free_cell 15) ∧
  ∃ p1 p2,
    TryAllocate 16 16 fresh16 5 = Done (Some (1 + 1), p1) ∧
    TryAllocate 16 16 p1 3 = Done (Some (1 + 1 + (5 + 1)), p2).
Proof.
  assert (0 ≤ 5 < UINT32_MOD - 1) as Hb1 by (apply blockSize_range16; lia).
  assert (0 ≤ 3 < UINT32_MOD - 1) as Hb2 by (apply blockSize_range16; lia).
  assert (scan_order fresh16 [free_cell 15] = [] ++ (1, free_cell 15) :: []) as Hs
    by (vm_compute; reflexivity).
  split; [exact fresh16_ok|]. split; [exact fuel16|]. split; [exact Hb1|].
  split; [exact Hb2|]. split; [exact Hs|]. split; [reflexivity|]. split; [simpl; lia|].
  apply (TryAllocate_twice_contiguous 16 range16 16 fresh16 _ 5 3 [] 1 (free_cell 15) []
           fresh16_ok fuel16 Hb1 Hb2 Hs); [constructor|reflexivity|simpl; lia].
Defined.

Lemma Sweep_then_TryAllocate_witness :
  page_ok 16 two_used16 [used_cell 6; used_cell 9] ∧ (Z.to_nat 16 ≤ 16)%nat ∧
  0 ≤ 8 < UINT32_MOD - 1 ∧
  ∃ alive p1 marks1 c r p2,
    Sweep 16 16 two_used16 {[2]} = Done (alive, p1, marks1) ∧
    load 16 (cells_ p1) (curBlock_ p1) = Done c ∧
    TryAllocate 16 16 p1 8 = Done (r, p2) ∧
    r = (if 8 + 1 <=? size_ c then Some (curBlock_ p1 + 1) else None).
Proof.
  assert (0 ≤ 8 < UINT32_MOD - 1) as Hbs by (apply blockSize_range16; lia).
  split; [exact two_used16_ok|]. split; [exact fuel16|]. split; [exact Hbs|].
  exact (Sweep_then_TryAllocate 16 range16 16 two_used16 _ {[2]} 8
           two_used16_ok fuel16 Hbs).
Defined.

Lemma Sweep_false_page_empty_witness :
  page_ok 16 two_used16 [used_cell 6; used_cell 9] ∧ (Z.to_nat 16 ≤ 16)%nat ∧
  Sweep 16 16 two_used16 ∅ = Done (false, all_free16, ∅) ∧
  page_ok 16 all_free16 [free_cell (16 - 1)] ∧
  curBlock_ all_free16 = 1 ∧
  load 16 (cells_ all_free16) 1 = Done (free_cell (16 - 1)).
Proof.
  assert (Sweep 16 16 two_used16 ∅ = Done (false, all_free16, ∅)) as E
    by (vm_compute; reflexivity).
  split; [exact two_used16_ok|]. split; [exact fuel16|]. split; [exact E|].
  exact (Sweep_false_page_empty 16 range16 16 two_used16 _ ∅ all_free16 ∅
           two_used16_ok fuel16 E).
Defined.

Lemma Sweep_marks_witness :
  page_ok 16 one_used16 [used_cell 6; free_cell 9] ∧ (Z.to_nat 16 ≤ 16)%nat ∧
  Sweep 16 16 one_used16 {[2; 9]} = Done (true, one_used_swept16, {[9]}) ∧
  ∀ x, x ∈ ({[9]} : gset Z) ↔
       x ∈ ({[2; 9]} : gset Z) ∧
       ¬ ∃ b c, (b, c) ∈ headers 1 [used_cell 6; free_cell 9] ∧
                isAllocated_ c = true ∧ x = b + 1.
Proof.
  assert (Sweep 16 16 one_used16 {[2; 9]} = Done (true, one_used_swept16, {[9]})) as E
    by (vm_compute; reflexivity).
  split; [exact one_used16_ok|]. split; [exact fuel16|]. split; [exact E|].
  exact (Sweep_marks 16 range16 16 one_used16 _ {[2; 9]} true one_used_swept16 {[9]}
           one_used16_ok fuel16 E).
Defined.

Lemma UpdateCurBlock_idempotent_witness :
  page_ok 16 mixed16 [free_cell 3; used_cell 4; free_cell 2; used_cell 6] ∧
  (Z.to_nat 16 ≤ 16)%nat ∧
  ∃ p1, UpdateCurBlock 16 16 mixed16 5 = Done p1 ∧
        UpdateCurBlock 16 16 p1 5 = Done p1.
Proof.
  split; [exact mixed16_ok|]. split; [exact fuel16|].
  exact (UpdateCurBlock_idempotent 16 range16 16 mixed16 _ 5 mixed16_ok fuel16).
Defined.

Lemma CheckInvariants_true_iff_witness :
  2 ≤ 16 < UINT32_MOD ∧ (Z.to_nat 16 ≤ 16)%nat ∧
  (CheckInvariants 16 16 mixed16 = Done true ↔
   0 ≤ curBlock_ mixed16 < 16 ∧
   ∃ l, l ≠ [] ∧ chain 16 (cells_ mixed16) 1 16 l).
Proof.
  split; [exact range16|]. split; [exact fuel16|].
  exact (CheckInvariants_true_iff 16 range16 16 mixed16 fuel16).
Defined.

Lemma CheckInvariants_terminates_witness :
  (Z.to_nat 16 ≤ 16)%nat ∧
  (∀ l k, chain 16 (cells_ broken16) 1 k l → k < 16 →
          is_Some (cells_ broken16 !! k)) ∧
  chain 16 (cells_ broken16) 1 7 [used_cell 6] ∧
  CheckInvariants 16 16 broken16 = Done false.
Proof.
  assert (chain 16 (cells_ broken16) 1 7 [used_cell 6]) as Hch
    by (cbn [chain]; repeat split; vm_compute; reflexivity).
  assert (∀ l k, chain 16 (cells_ broken16) 1 k l → k < 16 →
                 is_Some (cells_ broken16 !! k)) as Hmem.
  { intros [|c [|c' l]] k H _.
    - simpl in H. subst k. vm_compute. eauto.
    - destruct H as (Hl & _ & E). vm_compute in Hl. injection Hl as <-.
      simpl in E. subst k. vm_compute. eauto.
    - destruct H as (Hl & _ & Hl' & Hs & _). vm_compute in Hl.
      injection Hl as <-. vm_compute in Hl'. injection Hl' as <-.
      simpl in Hs. lia. }
  split; [exact fuel16|]. split; [exact Hmem|]. split; [exact Hch|].
  destruct (CheckInvariants_terminates 16 range16 16 broken16 fuel16 Hmem)
    as (b & E & Hfalse).
  rewrite E. f_equal.
  apply (Hfalse [used_cell 6] 7 (free_cell 0) Hch); [vm_compute|]; reflexivity.
Defined.

Lemma Sweep_needs_positive_sizes_witness :
  2 ≤ 16 < UINT32_MOD ∧
  load 16 (list_to_map [(0, free_cell 0); (1, used_cell 0)]) 1 = Done (used_cell 0) ∧
  size_ (used_cell 0) = 0 ∧
  ∀ fuel,
    Sweep 16 fuel
      {| curBlock_ := 0; cells_ := list_to_map [(0, free_cell 0); (1, used_cell 0)] |}
      {[2]} = Timeout.
Proof.
  assert (load 16 (list_to_map [(0, free_cell 0); (1, used_cell 0)]) 1 =
          Done (used_cell 0)) as Hl by (vm_compute; reflexivity).
  split; [exact range16|]. split; [exact Hl|]. split; [reflexivity|].
  exact (Sweep_needs_positive_sizes 16 range16
           {| curBlock_ := 0;
              cells_ := list_to_map [(0, free_cell 0); (1, used_cell 0)] |}
           (used_cell 0) {[2]} Hl eq_refl).
Defined.

Lemma TryAllocate_failure_stable_witness :
  page_ok 16 fresh16 [free_cell 15] ∧ (Z.to_nat 16 ≤ 16)%nat ∧
  0 ≤ 20 < UINT32_MOD - 1 ∧
  TryAllocate 16 16 fresh16 20 = Done (None, fresh_moved16) ∧
  cells_ fresh_moved16 = cells_ fresh16 ∧
  TryAllocate 16 16 fresh_moved16 20 = Done (None, fresh_moved16).
Proof.
  assert (0 ≤ 20 < UINT32_MOD - 1) as Hbs by (unfold UINT32_MOD; lia).
  assert (TryAllocate 16 16 fresh16 20 = Done (None, fresh_moved16)) as E
    by (vm_compute; reflexivity).
  split; [exact fresh16_ok|]. split; [exact fuel16|]. split; [exact Hbs|].
  split; [exact E|].
  exact (TryAllocate_failure_stable 16 range16 16 fresh16 _ 20 fresh_moved16
           fresh16_ok fuel16 Hbs E).
Defined.

Lemma TryAllocate_after_failure_witness :
  page_ok 16 one_used16 [used_cell 6; free_cell 9] ∧ (Z.to_nat 16 ≤ 16)%nat ∧
  0 ≤ 20 < UINT32_MOD - 1 ∧ 0 ≤ 8 < UINT32_MOD - 1 ∧
  TryAllocate 16 16 one_used16 20 = Done (None, one_used_swept16) ∧
  ∃ c r p2,
    load 16 (cells_ one_used_swept16) (curBlock_ one_used_swept16) = Done c ∧
    TryAllocate 16 16 one_used_swept16 8 = Done (r, p2) ∧
    r = (if 8 + 1 <=? size_ c then Some (curBlock_ one_used_swept16 + 1) else None).
Proof.
  assert (0 ≤ 20 < UINT32_MOD - 1) as Hb1 by (unfold UINT32_MOD; lia).
  assert (0 ≤ 8 < UINT32_MOD - 1) as Hb2 by (unfold UINT32_MOD; lia).
  assert (TryAllocate 16 16 one_used16 20 = Done (None, one_used_swept16)) as E
    by (vm_compute; reflexivity).
  split; [exact one_used16_ok|]. split; [exact fuel16|]. split; [exact Hb1|].
  split; [exact Hb2|]. split; [exact E|].
  exact (TryAllocate_after_failure 16 range16 16 one_used16 _ 20 8 one_used_swept16
           one_used16_ok fuel16 Hb1 Hb2 E).
Defined.
